(** * A verification development for the geodetic module [cruntils/gis.py].

    Numbers.  Python floats are modelled by exact numbers: by rationals [Q]
    where the code only adds, multiplies, divides, truncates and formats
    ([DdToDms], [DmsToDd], [Egm.GetHeight]), and by reals [R] where it calls
    [math.sin], [math.cos], [math.atan] and friends.  Rounding of IEEE
    arithmetic is not modelled.

    Effects.  A raised exception is the [Err] branch of [result]; a
    function that prints returns its printed lines next to its result. *)

From Stdlib Require Import ZArith QArith Qround Qabs Qreals Lia Lqa Lra.
From Stdlib Require Import Reals Ratan Machin.
From Stdlib Require Import String Ascii List.
From Stdlib Require Import DecimalString Qpower.
Import ListNotations.

(* ------------------------------------------------------------------ *)
(** ** Python exceptions and results *)

Inductive PyExc : Type :=
| IndexError
| ValueError
| TypeError
| AttributeError
| ZeroDivisionError
| UnboundLocalError (var : string).

Inductive result (A : Type) : Type :=
| Ok (a : A)
| Err (e : PyExc).
Arguments Ok {A} a.
Arguments Err {A} e.

Definition bind {A B} (m : result A) (f : A -> result B) : result B :=
  match m with
  | Ok a => f a
  | Err e => Err e
  end.

Notation "'let*' x ':=' m 'in' f" := (bind m (fun x => f))
  (at level 200, x name, m at level 100, f at level 200).

(** Python's [lst[i]]: negative indices count from the end, anything
    outside [-len, len) raises [IndexError]. *)
Definition py_index {A} (l : list A) (i : Z) : result A :=
  let n := Z.of_nat (length l) in
  let j := if (i <? 0)%Z then (i + n)%Z else i in
  if ((j <? 0)%Z || (n <=? j)%Z)%bool then Err IndexError
  else match nth_error l (Z.to_nat j) with
       | Some x => Ok x
       | None => Err IndexError
       end.

(* ------------------------------------------------------------------ *)
(** ** Python builtins on numbers and strings (exact model) *)

Module Py.

(** [int(x)] truncates towards zero. *)
Definition int (q : Q) : Z :=
  if Qle_bool 0 q then Qfloor q else (- Qfloor (- q))%Z.

(** [abs(x)]. *)
Definition abs (q : Q) : Q := Qabs q.

(** Round half to even of a rational to an integer. *)
Definition round_half_even (q : Q) : Z :=
  let f := Qfloor q in
  let r := (q - inject_Z f)%Q in
  if Qlt_le_dec r (1 # 2) then f
  else if Qeq_bool r (1 # 2) then (if Z.even f then f else f + 1)%Z
  else (f + 1)%Z.

(** [round(x, 4)] returns the float [k * 10^-4]; we return the integer
    [k].  Python rounds the exact value of its argument half to even. *)
Definition round4 (q : Q) : Z := round_half_even (q * inject_Z 10000).

(** Decimal digits of a non-negative integer, most significant first,
    "0" for zero.  The fuel [n + 1] is never exhausted: each step divides
    [n] by ten. *)
Definition digit_char (d : Z) : ascii := ascii_of_nat (48 + Z.to_nat d).

Fixpoint digits_fuel (fuel : nat) (n : Z) : list ascii :=
  match fuel with
  | O => []
  | S f =>
      if (n <? 10)%Z then [digit_char n]
      else digits_fuel f (n / 10)%Z ++ [digit_char (n mod 10)%Z]
  end.

Definition nat_digits (n : Z) : list ascii := digits_fuel (S (Z.to_nat n)) n.

(** [str(n)] for an [int]. *)
Definition str_int (z : Z) : string :=
  string_of_list_ascii
    (if (z <? 0)%Z then "-"%char :: nat_digits (- z) else nat_digits z).

(** [s.rjust(w, c)]: pad on the left with [c] up to width [w]. *)
Definition rjust (s : string) (w : nat) (c : ascii) : string :=
  (string_of_list_ascii (repeat c (w - String.length s)) ++ s)%string.

(** Trailing zeros of the fractional digits of a float's [str] are dropped,
    keeping at least one digit. *)
Fixpoint strip_zeros (s : list ascii) : list ascii :=
  match s with
  | "0"%char :: rest => strip_zeros rest
  | _ => s
  end.

Definition frac_digits4 (r : Z) : list ascii :=
  let padded := list_ascii_of_string (rjust (str_int r) 4 "0") in
  match strip_zeros (rev padded) with
  | [] => ["0"%char]
  | l => rev l
  end.

(** [str(f)] for the float [f = k * 10^-4] returned by [round(x, 4)]:
    Python prints the shortest decimal that reads back as [f], which for
    a value with at most four decimals below [10^16] is its plain decimal
    expansion with at least one fractional digit ("0.0", "30.0",
    "12.3456"). *)
Definition str_round4 (k : Z) : string :=
  let sgn := if (k <? 0)%Z then ["-"%char] else [] in
  let a := Z.abs k in
  string_of_list_ascii
    (sgn ++ nat_digits (a / 10000) ++ "."%char :: frac_digits4 (a mod 10000)).

(** [s.split(" ")]: cut at every single space, keeping empty pieces. *)
Fixpoint split_sp (s : string) : list string :=
  match s with
  | EmptyString => [EmptyString]
  | String c rest =>
      if Ascii.eqb c " " then EmptyString :: split_sp rest
      else match split_sp rest with
           | w :: ws => String c w :: ws
           | [] => [String c EmptyString]
           end
  end.

Definition is_space (c : ascii) : bool :=
  (Ascii.eqb c " " || Ascii.eqb c "009" || Ascii.eqb c "010"
   || Ascii.eqb c "011" || Ascii.eqb c "012" || Ascii.eqb c "013")%bool.

Fixpoint lstrip (s : list ascii) : list ascii :=
  match s with
  | c :: rest => if is_space c then lstrip rest else s
  | [] => []
  end.

Definition strip (s : string) : list ascii :=
  rev (lstrip (rev (lstrip (list_ascii_of_string s)))).

Definition digit_val (c : ascii) : option Z :=
  let n := nat_of_ascii c in
  if (48 <=? n)%nat && (n <=? 57)%nat then Some (Z.of_nat (n - 48))
  else None.

(** Digits with at most one decimal point; at least one digit.
    Returns the digits as an integer and the number of digits after the
    point. *)
Fixpoint mantissa (s : list ascii) (dot : bool) (num : Z) (scale ndig : nat)
  : option (Z * nat) :=
  match s with
  | [] => if (ndig =? 0)%nat then None else Some (num, scale)
  | c :: rest =>
      match digit_val c with
      | Some d =>
          mantissa rest dot (num * 10 + d)%Z
                   (if dot then S scale else scale) (S ndig)
      | None =>
          if Ascii.eqb c "." && negb dot
          then mantissa rest true num scale ndig
          else None
      end
  end.

(** [float(s)] on decimal literals: surrounding white space, an optional
    sign, digits with an optional point.  Exponents, underscores, "inf" and
    "nan", which Python also accepts, are not modelled and give
    [ValueError] here; every string produced by this module is plain
    decimal. *)
Definition float (s : string) : result Q :=
  let body := strip s in
  let '(neg, digits) :=
    match body with
    | "-"%char :: rest => (true, rest)
    | "+"%char :: rest => (false, rest)
    | _ => (false, body)
    end in
  match mantissa digits false 0%Z 0 0 with
  | Some (num, scale) =>
      let v := (inject_Z num / inject_Z (10 ^ Z.of_nat scale))%Q in
      Ok (if neg then Qopp v else v)
  | None => Err ValueError
  end.

End Py.

(* ------------------------------------------------------------------ *)
(** ** Angle format conversion: [DmsToDd], [DdToDms] *)

Inductive ELatLon : Type := Lat | Lon.

Definition DmsToDd (dms_str : string) : result Q :=
  let parts := Py.split_sp dms_str in
  let* p0 := py_index parts 0 in
  let* deg := Py.float p0 in
  let* p1 := py_index parts 1 in
  let* m := Py.float p1 in
  let min := (m / 60)%Q in
  let* p2 := py_index parts 2 in
  let* s := Py.float p2 in
  let sec := (s / 3600)%Q in
  let dd := (deg + min + sec)%Q in
  let* p3 := py_index parts 3 in
  if (String.eqb p3 "S" || String.eqb p3 "W")%bool then Ok (- dd)%Q
  else Ok dd.

Definition DdToDms (dd : Q) (lat_or_lon : ELatLon) : string :=
  let dd_abs := Py.abs dd in
  let deg := Py.int dd_abs in
  let min := Py.int ((dd_abs - inject_Z deg) * 60) in
  let sec := ((dd_abs - inject_Z deg - inject_Z min / 60) * 3600)%Q in
  let deg_str :=
    match lat_or_lon with
    | Lat => Py.rjust (Py.str_int deg) 2 "0"
    | Lon => Py.rjust (Py.str_int deg) 3 "0"
    end in
  let suffix :=
    match lat_or_lon with
    | Lat => if Qlt_le_dec dd 0 then "S"%string else "N"%string
    | Lon => if Qlt_le_dec dd 0 then "W"%string else "E"%string
    end in
  (deg_str ++ " " ++ Py.str_int min ++ " " ++ Py.str_round4 (Py.round4 sec)
   ++ " " ++ suffix)%string.

Example DdToDms_ex2 : DdToDms (-(12345678 # 1000000)) Lon = "012 20 44.4408 W"%string.
Proof. vm_compute. reflexivity. Qed.
Example DdToDms_ex3 : DdToDms (-(1 # 100000)) Lat = "00 0 0.036 S"%string.
Proof. vm_compute. reflexivity. Qed.
Example DdToDms_ex4 : DdToDms (17999999999 # 100000000) Lon = "179 59 60.0 E"%string.
Proof. vm_compute. reflexivity. Qed.

(* ------------------------------------------------------------------ *)
(** ** The real-number part of [gis.py] *)

Module Geo.
Local Open Scope R_scope.

(** Modelled from the spec: [utils.DegToRad], degrees to radians with the
    standard factor (section 4.1, "standard conversions, no validation"). *)
Definition DegToRad (deg : R) : R := deg * PI / 180.

(** Modelled from the spec: [utils.RadToDeg], radians to degrees. *)
Definition RadToDeg (rad : R) : R := rad * 180 / PI.

(** Modelled from the spec: [utils.Cos5], the fifth power of the cosine. *)
Definition Cos5 (x : R) : R := cos x ^ 5.

(** Modelled from the spec: [utils.Tan2], the square of the tangent. *)
Definition Tan2 (x : R) : R := tan x ^ 2.

(** Modelled from the spec: [utils.Tan4], the fourth power of the tangent. *)
Definition Tan4 (x : R) : R := tan x ^ 4.

Definition wgs84_earth_equatorial_radius_m : R := 6378137.

(** Python's float division: dividing by zero raises. *)
Definition py_div (x y : R) : result R :=
  if Req_EM_T y 0 then Err ZeroDivisionError else Ok (x / y).

(** [math.sqrt] and [math.asin] raise [ValueError] outside their domain. *)
Definition py_sqrt (x : R) : result R :=
  if Rlt_dec x 0 then Err ValueError else Ok (sqrt x).

Definition py_asin (x : R) : result R :=
  if Rlt_dec x (-1) then Err ValueError
  else if Rlt_dec 1 x then Err ValueError
  else Ok (asin x).

(** [math.atan2(y, x)], the angle of the point [(x, y)] in [(-PI, PI]]. *)
Definition py_atan2 (y x : R) : R :=
  if Rlt_dec 0 x then atan (y / x)
  else if Rlt_dec x 0 then
    (if Rle_dec 0 y then atan (y / x) + PI else atan (y / x) - PI)
  else if Rlt_dec 0 y then PI / 2
  else if Rlt_dec y 0 then - (PI / 2)
  else 0.

Inductive ECoordFormat : Type := LatLonRad | LatLonDd | LatLonDms.

(** The value passed as [ellipsoid_ref]: one of the two members of
    [EReferenceEllipsoid], or any other Python value. *)
Inductive EllipsoidRef : Type :=
| Airy1830
| Wgs84
| OtherValue (tag : nat).

(** A coordinate as the caller passes it: a number, or a string (the
    degrees-minutes-seconds form). *)
Inductive PyVal : Type :=
| VNum (r : R)
| VStr (s : string).

Definition GetAiry1830 : R * R := (6377563.396, 6356256.909).
Definition GetWgs84 : R * R := (6378137.000, 6356752.3141).

Definition Eccentricity1 (a b : R) : R := (a ^ 2 - b ^ 2) / a ^ 2.
Definition Eccentricity2 (a b : R) : R := (a ^ 2 - b ^ 2) / b ^ 2.

(** [utils.DegToRad] on a Python value: arithmetic on a [str] raises. *)
Definition DegToRad_val (v : PyVal) : result PyVal :=
  match v with
  | VNum r => Ok (VNum (DegToRad r))
  | VStr _ => Err TypeError
  end.

(** [DmsToDd] on a Python value: a number has no [split] method. *)
Definition DmsToDd_val (v : PyVal) : result R :=
  match v with
  | VNum _ => Err AttributeError
  | VStr s => let* q := DmsToDd s in Ok (Q2R q)
  end.

(** The first statement of [LatLonHeightToEcefCartesian]: the
    [coord_format] dispatch. *)
Definition convert_format (coord_format : ECoordFormat) (lat lon : PyVal)
  : result (PyVal * PyVal) :=
  match coord_format with
  | LatLonDd =>
      let* lat := DegToRad_val lat in
      let* lon := DegToRad_val lon in
      Ok (lat, lon)
  | LatLonDms =>
      let* dlat := DmsToDd_val lat in
      let* dlon := DmsToDd_val lon in
      Ok (VNum (DegToRad dlat), VNum (DegToRad dlon))
  | LatLonRad => Ok (lat, lon)
  end.

(** The [if]/[elif] on [ellipsoid_ref]: [None] when neither branch runs
    and [a, b] stay unbound. *)
Definition ellipsoid_lookup (ellipsoid_ref : EllipsoidRef) : option (R * R) :=
  match ellipsoid_ref with
  | Airy1830 => Some GetAiry1830
  | Wgs84 => Some GetWgs84
  | OtherValue _ => None
  end.

Definition LatLonHeightToEcefCartesian (lat lon : PyVal) (height : R)
    (coord_format : ECoordFormat) (ellipsoid_ref : EllipsoidRef)
  : list string * result (R * R * R) :=
  match convert_format coord_format lat lon with
  | Err e => ([], Err e)
  | Ok (lat, lon) =>
      let printed :=
        match ellipsoid_ref with
        | OtherValue _ => ["Invalid ellipsoid!"%string]
        | _ => []
        end in
      (printed,
        match ellipsoid_lookup ellipsoid_ref with
        | None => Err (UnboundLocalError "a")
        | Some (a, b) =>
            let e2 := Eccentricity1 a b in
            match lat, lon with
            | VNum lat, VNum lon =>
                let v := a / sqrt (1 - (e2 * sin lat ^ 2)) in
                let x := (v + height) * cos lat * cos lon in
                let y := (v + height) * cos lat * sin lon in
                let z := (((1 - e2) * v) + height) * sin lat in
                Ok (x, y, z)
            | _, _ => Err TypeError
            end
        end)
  end.

Definition CartesianToLatLon (x y z : R) (ellipsoid_ref : EllipsoidRef)
  : result (R * R * R) :=
  match ellipsoid_lookup ellipsoid_ref with
  | None => Err (UnboundLocalError "a")
  | Some (a, b) =>
      let e2 := Eccentricity1 a b in
      let e22 := Eccentricity2 a b in
      let p := sqrt (x ^ 2 + y ^ 2) in
      let R := sqrt (p ^ 2 + z ^ 2) in
      let* t1 := py_div (b * z) (a * p) in
      let* t2 := py_div b R in
      let tan_beta := t1 * ((1 + e22) * t2) in
      let beta := atan tan_beta in
      let tan_lat_prime_top := z + (e22 * b * sin beta ^ 3) in
      let tan_lat_prime_bot := p - (e2 * a * cos beta ^ 3) in
      let* tan_lat_prime := py_div tan_lat_prime_top tan_lat_prime_bot in
      let lat_rad := atan tan_lat_prime in
      let* tan_lon_prime := py_div y x in
      let lon_rad := atan tan_lon_prime in
      let v := a / sqrt (1 - (e2 * sin lat_rad ^ 2)) in
      let height := (p * cos lat_rad) + (z * sin lat_rad) - (a ^ 2 / v) in
      Ok (RadToDeg lat_rad, RadToDeg lon_rad, height)
  end.

Definition DistanceBetween (lat_1 lon_1 lat_2 lon_2 : R) (degrees : bool)
  : result R :=
  let '(lat_1, lon_1, lat_2, lon_2) :=
    if degrees
    then (DegToRad lat_1, DegToRad lon_1, DegToRad lat_2, DegToRad lon_2)
    else (lat_1, lon_1, lat_2, lon_2) in
  let delta_lat := lat_2 - lat_1 in
  let delta_lon := lon_2 - lon_1 in
  let a := (sin (delta_lat / 2) * sin (delta_lat / 2))
           + (cos lat_1 * cos lat_2 * sin (delta_lon / 2) * sin (delta_lon / 2)) in
  let* sa := py_sqrt a in
  let* sb := py_sqrt (1 - a) in
  let c := 2 * py_atan2 sa sb in
  Ok (wgs84_earth_equatorial_radius_m * c).

Definition Extrapolate (lat lon brg dst : R) (degrees : bool) : result (R * R) :=
  let ang_dst := dst / wgs84_earth_equatorial_radius_m in
  let '(lat, lon, brg) :=
    if degrees then (DegToRad lat, DegToRad lon, DegToRad brg)
    else (lat, lon, brg) in
  let* tlat := py_asin ((sin lat * cos ang_dst)
                        + (cos lat * sin ang_dst * cos brg)) in
  let tlon := lon + py_atan2 (sin brg * sin ang_dst * cos lat)
                             (cos ang_dst - (sin lat * sin tlat)) in
  Ok (RadToDeg tlat, RadToDeg tlon).

(** [math.pow(x, k)] with an integer exponent is [x ^ k]; with the
    exponents [-0.5] and [-1.5] it is [Rpower]. *)
Definition LatLonToGridEastNorth (lat lon : R) : R * R :=
  let F0 := 0.9996012717 in
  let lat_0 := DegToRad 49 in
  let lon_0 := DegToRad (-2) in
  let E0 := 400000 in
  let N0 := -100000 in
  let '(a, b) := GetAiry1830 in
  let e2 := Eccentricity1 a b in
  let lat := DegToRad lat in
  let lon := DegToRad lon in
  let n := (a - b) / (a + b) in
  let v := a * F0 * Rpower (1 - (e2 * sin lat ^ 2)) (-0.5) in
  let p := a * F0 * (1 - e2) * Rpower (1 - (e2 * sin lat ^ 2)) (-1.5) in
  let n2 := (v / p) - 1 in
  let m1 := (1 + n + ((5/4) * n ^ 2) + ((5/4) * n ^ 3)) * (lat - lat_0) in
  let m2_1 := (3 * n) + (3 * n ^ 2) + ((21/8) * n ^ 3) in
  let m2_2 := sin (lat - lat_0) in
  let m2_3 := cos (lat + lat_0) in
  let m2 := m2_1 * m2_2 * m2_3 in
  let m3_1 := ((15/8) * n ^ 2) + ((15/8) * n ^ 3) in
  let m3_2 := sin (2 * (lat - lat_0)) * cos (2 * (lat + lat_0)) in
  let m3_3 := (35/24) * n ^ 3 * sin (3 * (lat - lat_0)) * cos (3 * (lat + lat_0)) in
  let m3 := (m3_1 * m3_2) - m3_3 in
  let m := b * F0 * (m1 - m2 + m3) in
  let I := m + N0 in
  let II := (v / 2) * sin lat * cos lat in
  let III := (v / 24) * sin lat * cos lat ^ 3 * (5 - tan lat ^ 2 + (9 * n2)) in
  let IIIA := (v / 720) * sin lat * Cos5 lat * (61 - (58 * Tan2 lat) + Tan4 lat) in
  let IV := v * cos lat in
  let V := (v / 6) * cos lat ^ 3 * ((v / p) - tan lat ^ 2) in
  let VI := (v / 120) * cos lat ^ 5
            * (5 - (18 * Tan2 lat) + Tan4 lat + (14 * n2) - (58 * Tan2 lat * n2)) in
  let N := I + (II * (lon - lon_0) ^ 2) + (III * (lon - lon_0) ^ 4)
           + (IIIA * (lon - lon_0) ^ 6) in
  let E := E0 + (IV * (lon - lon_0))
           + ((V * (lon - lon_0) ^ 3) + (VI * (lon - lon_0) ^ 5)) in
  (E, N).

(** *** [GridEastNorthToLatLon]: a big-step semantics of its loop *)

(** What the function prints: [f"Lat dash: ..."] once, then
    [f"Value: ..."] at the start of every iteration. *)
Inductive grid_print : Type :=
| PrintLatDash (v : R)
| PrintValue (v : R).

Record grid_state : Type := {
  gs_m : R;
  gs_lat_dash : R;
  gs_printed : list grid_print
}.

(** The [m] one iteration computes; the series has [ntings] where the
    forward projection has [n]. *)
Definition grid_m (ntings lat_dash : R) : R :=
  let lat_0 := DegToRad 49 in
  let f0 := 0.9996012717 in
  let '(a, b) := GetAiry1830 in
  let m1 := (1 + ntings + ((5/4) * ntings ^ 2) + ((5/4) * ntings ^ 3))
            * (lat_dash - lat_0) in
  let m2_1 := (3 * ntings) + (3 * ntings ^ 2) + ((21/8) * ntings ^ 3) in
  let m2_2 := sin (lat_dash - lat_0) in
  let m2_3 := cos (lat_dash + lat_0) in
  let m2 := m2_1 * m2_2 * m2_3 in
  let m3_1 := ((15/8) * ntings ^ 2) + ((15/8) * ntings ^ 3) in
  let m3_2 := sin (2 * (lat_dash - lat_0)) * cos (2 * (lat_dash + lat_0)) in
  let m3_3 := (35/24) * ntings ^ 3 * sin (3 * (lat_dash - lat_0))
              * cos (3 * (lat_dash + lat_0)) in
  let m3 := (m3_1 * m3_2) - m3_3 in
  b * f0 * (m1 - m2 + m3).

(** [(ntings - n0) / (a * f0)], the step added to [lat_dash]. *)
Definition grid_step (ntings : R) : R :=
  let n0 := -100000 in
  let f0 := 0.9996012717 in
  let '(a, b) := GetAiry1830 in
  (ntings - n0) / (a * f0).

(** The loop condition [(ntings - n0 - m) >= 0.001]. *)
Definition grid_cond (ntings : R) (st : grid_state) : Prop :=
  ntings - (-100000) - gs_m st >= 0.001.

(** One iteration: print, compute [m], advance [lat_dash]. *)
Definition grid_body (ntings : R) (st : grid_state) : grid_state := {|
  gs_m := grid_m ntings (gs_lat_dash st);
  gs_lat_dash := grid_step ntings + gs_lat_dash st;
  gs_printed := gs_printed st ++ [PrintValue (ntings - (-100000) - gs_m st)]
|}.

Inductive grid_loop (ntings : R) : grid_state -> grid_state -> Prop :=
| grid_loop_done st :
    ~ grid_cond ntings st -> grid_loop ntings st st
| grid_loop_iter st st' :
    grid_cond ntings st ->
    grid_loop ntings (grid_body ntings st) st' ->
    grid_loop ntings st st'.

(** The state before the loop: [lat_dash] printed, [m = 0]. *)
Definition grid_init (ntings : R) : grid_state :=
  let lat_dash := grid_step ntings + DegToRad 49 in
  {| gs_m := 0; gs_lat_dash := lat_dash; gs_printed := [PrintLatDash lat_dash] |}.

(** [GridEastNorthToLatLon ntings etings printed ret]: a terminating call
    prints [printed] and returns [ret].  The body ends with the loop and
    has no [return] statement, so the call returns [None]; [etings] is
    never read. *)
Inductive GridEastNorthToLatLon (ntings etings : R)
  : list grid_print -> option (R * R) -> Prop :=
| GridEastNorthToLatLon_run st :
    grid_loop ntings (grid_init ntings) st ->
    GridEastNorthToLatLon ntings etings (gs_printed st) None.

End Geo.

(* ------------------------------------------------------------------ *)
(** ** [Egm.GetHeight]: bilinear interpolation in the geoid grid *)

Module Egm.
Local Open Scope Q_scope.

(** [self.StepSize = 0.25]. *)
Definition StepSize : Q := 1 # 4.

(** Python's float [x % y]: the remainder has the sign of [y]. *)
Definition py_mod (x y : Q) : Q := x - y * inject_Z (Qfloor (x / y)).

(** Python's [round(q, 2)]: half to even at the second decimal. *)
Definition round2 (q : Q) : Q :=
  inject_Z (Py.round_half_even (q * 100)) / 100.

(** [GetHeight] reading the rows loaded into [Egm96GridHeights]. *)
Definition GetHeight (Egm96GridHeights : list (list Q)) (lat lon : Q) : result Q :=
  let x := lon in
  let y := lat in
  let x1 := x - py_mod x StepSize in
  let x2 := x1 + StepSize in
  let y1 := y - py_mod y StepSize in
  let y2 := y1 + StepSize in
  let* row := py_index Egm96GridHeights (Py.int (y1 / StepSize)) in
  let* q11 := py_index row (Py.int (x1 / StepSize)) in
  let* row := py_index Egm96GridHeights (Py.int (y2 / StepSize)) in
  let* q12 := py_index row (Py.int (x1 / StepSize)) in
  let* row := py_index Egm96GridHeights (Py.int (y1 / StepSize)) in
  let* q21 := py_index row (Py.int (x2 / StepSize)) in
  let* row := py_index Egm96GridHeights (Py.int (y2 / StepSize)) in
  let* q22 := py_index row (Py.int (x2 / StepSize)) in
  let xy1 := (((x2 - x) / (x2 - x1)) * q11) + (((x - x1) / (x2 - x1)) * q21) in
  let xy2 := (((x2 - x) / (x2 - x1)) * q12) + (((x - x1) / (x2 - x1)) * q22) in
  let yx := (((y2 - y) / (y2 - y1)) * xy1) + (((y - y1) / (y2 - y1)) * xy2) in
  Ok (round2 yx).

(** A grid of [rows] rows of [cols] values each. *)
Definition is_rect (g : list (list Q)) (rows cols : nat) : bool :=
  Nat.eqb (length g) rows && forallb (fun row => Nat.eqb (length row) cols) g.

(** The query points whose four surrounding grid indices all exist in a
    grid of [rows] rows of [cols] values. *)
Definition in_grid_window (rows cols : nat) (lat lon : Q) : Prop :=
  (- Z.of_nat rows <= Qfloor (lat / StepSize) <= Z.of_nat rows - 2)%Z /\
  (- Z.of_nat cols <= Qfloor (lon / StepSize) <= Z.of_nat cols - 2)%Z.

(** A grid of the EGM96 15' file's shape (721 rows of 1441 values, the
    southernmost row first) whose row [r] holds the height [r]. *)
Definition row_index_grid : list (list Q) :=
  map (fun r => repeat (inject_Z (Z.of_nat r)) 1441) (seq 0 721).

End Egm.

(* ------------------------------------------------------------------ *)
(** ** Facts about the formatting and parsing helpers *)

Module DmsFacts.
Import Py.

(** Linear arithmetic over [Q], with division by literals made explicit. *)
Ltac qlra :=
  unfold Qdiv in *;
  repeat match goal with
         | H : context [ (/ (Z.pos ?p # 1))%Q ] |- _ =>
             change (/ (Z.pos p # 1))%Q with (1 # p)%Q in H
         | |- context [ (/ (Z.pos ?p # 1))%Q ] =>
             change (/ (Z.pos p # 1))%Q with (1 # p)%Q
         end;
  Lqa.lra.

Definition dval (c : ascii) : Z :=
  match digit_val c with Some d => d | None => 0%Z end.

Definition is_digit (c : ascii) : bool :=
  match digit_val c with Some _ => true | None => false end.

Definition dstep (acc : Z) (c : ascii) : Z := (acc * 10 + dval c)%Z.

Definition val (l : list ascii) : Z := fold_left dstep l 0%Z.

Lemma digit_char_val (d : Z) :
  (0 <= d < 10)%Z -> digit_val (digit_char d) = Some d.
Proof.
  intros Hd. unfold digit_val, digit_char.
  rewrite nat_ascii_embedding by lia.
  replace ((48 <=? 48 + Z.to_nat d)%nat && (48 + Z.to_nat d <=? 57)%nat)%bool
    with true.
  - f_equal. lia.
  - symmetry. apply andb_true_intro. split; apply Nat.leb_le; lia.
Qed.

Lemma fold_dstep_app (l1 l2 : list ascii) (acc : Z) :
  fold_left dstep (l1 ++ l2) acc = fold_left dstep l2 (fold_left dstep l1 acc).
Proof. apply fold_left_app. Qed.

Lemma fold_dstep_start (l : list ascii) (acc : Z) :
  fold_left dstep l acc = (acc * 10 ^ Z.of_nat (length l) + val l)%Z.
Proof.
  unfold val. revert acc. induction l as [|c l IH]; intros acc;
    cbn [fold_left length].
  - simpl. lia.
  - rewrite (IH (dstep acc c)), (IH (dstep 0%Z c)). unfold dstep.
    rewrite Nat2Z.inj_succ, Z.pow_succ_r by lia. ring.
Qed.

Lemma digits_fuel_ok (fuel : nat) (n : Z) :
  (0 <= n < Z.of_nat fuel)%Z ->
  forallb is_digit (digits_fuel fuel n) = true /\
  val (digits_fuel fuel n) = n /\
  digits_fuel fuel n <> [] /\
  (forall k : nat, (n < 10 ^ Z.of_nat k)%Z -> (1 <= k)%nat ->
                   (length (digits_fuel fuel n) <= k)%nat).
Proof.
  revert n. induction fuel as [|f IH]; intros n Hn; [lia|].
  cbn [digits_fuel]. destruct (Z.ltb_spec n 10) as [Hlt|Hge].
  - assert (Hc : digit_val (digit_char n) = Some n)
      by (apply digit_char_val; lia).
    unfold val. cbn [forallb fold_left length].
    unfold is_digit, dstep, dval. rewrite Hc.
    refine (conj eq_refl (conj _ (conj _ _))); [lia | discriminate | intros; lia].
  - assert (Hq : (0 <= n / 10 < Z.of_nat f)%Z).
    { split; [apply Z.div_pos; lia|].
      apply Z.div_lt_upper_bound; lia. }
    destruct (IH (n / 10)%Z Hq) as (Hd & Hv & Hne & Hlen).
    assert (Hm : (0 <= n mod 10 < 10)%Z) by (apply Z.mod_pos_bound; lia).
    assert (Hc : digit_val (digit_char (n mod 10)) = Some (n mod 10)%Z)
      by (apply digit_char_val; lia).
    repeat split.
    + rewrite forallb_app, Hd. cbn [forallb]. unfold is_digit.
      rewrite Hc. reflexivity.
    + unfold val. rewrite fold_dstep_app. fold (val (digits_fuel f (n / 10))).
      rewrite Hv. cbn [fold_left]. unfold dstep, dval. rewrite Hc.
      pose proof (Z.div_mod n 10). lia.
    + intros E. apply app_eq_nil in E. destruct E as [_ E]. discriminate.
    + intros k Hk Hk1. rewrite length_app. cbn [length].
      destruct k as [|k]; [lia|].
      assert (Hk' : (n / 10 < 10 ^ Z.of_nat k)%Z).
      { apply Z.div_lt_upper_bound; [lia|].
        rewrite Nat2Z.inj_succ, Z.pow_succ_r in Hk by lia. lia. }
      destruct k as [|k].
      * cbn in Hk'. pose proof (Z.div_le_lower_bound n 10 1). lia.
      * specialize (Hlen (S k) Hk'). lia.
Qed.

Lemma nat_digits_ok (n : Z) :
  (0 <= n)%Z ->
  forallb is_digit (nat_digits n) = true /\ val (nat_digits n) = n /\
  nat_digits n <> [] /\
  (forall k : nat, (n < 10 ^ Z.of_nat k)%Z -> (1 <= k)%nat ->
                   (length (nat_digits n) <= k)%nat).
Proof. intros Hn. apply digits_fuel_ok. lia. Qed.

Lemma val_zeros (j : nat) : val (repeat "0"%char j) = 0%Z.
Proof.
  unfold val. induction j as [|j IH]; [reflexivity|].
  cbn [repeat fold_left]. exact IH.
Qed.

Lemma val_app (l1 l2 : list ascii) :
  val (l1 ++ l2) = (val l1 * 10 ^ Z.of_nat (length l2) + val l2)%Z.
Proof. unfold val at 1. rewrite fold_dstep_app. apply fold_dstep_start. Qed.

Lemma strip_zeros_spec (l : list ascii) :
  exists j, l = repeat "0"%char j ++ strip_zeros l.
Proof.
  induction l as [|c l [j IH]]; [exists 0%nat; reflexivity|].
  destruct c as [[] [] [] [] [] [] [] []];
    try (exists 0%nat; reflexivity).
  exists (S j). cbn [strip_zeros repeat app]. rewrite <- IH. reflexivity.
Qed.

Lemma is_digit_not_space (c : ascii) : is_digit c = true -> is_space c = false.
Proof. destruct c as [[] [] [] [] [] [] [] []]; try reflexivity; discriminate. Qed.

Lemma is_digit_not_sign (c : ascii) (rest : list ascii) :
  is_digit c = true ->
  match c :: rest with
  | "-"%char :: r => (true, r)
  | "+"%char :: r => (false, r)
  | _ => (false, c :: rest)
  end = (false, c :: rest).
Proof. destruct c as [[] [] [] [] [] [] [] []]; try reflexivity; discriminate. Qed.

Lemma is_digit_zero : is_digit "0"%char = true.
Proof. reflexivity. Qed.

Lemma lstrip_id (l : list ascii) :
  forallb (fun c => negb (is_space c)) l = true -> lstrip l = l.
Proof.
  destruct l as [|c l]; [reflexivity|]. cbn [forallb lstrip].
  destruct (is_space c); [discriminate|reflexivity].
Qed.

Lemma strip_id (l : list ascii) :
  forallb (fun c => negb (is_space c)) l = true ->
  strip (string_of_list_ascii l) = l.
Proof.
  intros H. unfold strip. rewrite list_ascii_of_string_of_list_ascii.
  rewrite (lstrip_id l H), lstrip_id, rev_involutive; [reflexivity|].
  apply forallb_forall. intros c Hc. apply in_rev in Hc.
  rewrite forallb_forall in H. apply H, Hc.
Qed.

Lemma mantissa_digits (l rest : list ascii) (dot : bool) (num : Z) (scale nd : nat) :
  forallb is_digit l = true ->
  mantissa (l ++ rest) dot num scale nd =
  mantissa rest dot (fold_left dstep l num)
           (if dot then (scale + length l)%nat else scale) (nd + length l).
Proof.
  revert num scale nd. induction l as [|c l IH]; intros num scale nd Hl.
  - cbn [app fold_left length]. rewrite Nat.add_0_r.
    destruct dot; rewrite ?Nat.add_0_r; reflexivity.
  - cbn [forallb] in Hl. apply andb_prop in Hl. destruct Hl as [Hc Hl].
    cbn [app mantissa fold_left length].
    unfold is_digit in Hc. destruct (digit_val c) as [d|] eqn:Ed; [|discriminate].
    rewrite IH by exact Hl. unfold dstep, dval. rewrite Ed.
    f_equal; [destruct dot|]; lia.
Qed.

Lemma all_digits_not_space (l : list ascii) :
  forallb is_digit l = true -> forallb (fun c => negb (is_space c)) l = true.
Proof.
  intros H. apply forallb_forall. intros c Hc. rewrite forallb_forall in H.
  rewrite (is_digit_not_space c (H c Hc)). reflexivity.
Qed.

(** [float] of a string that starts with a digit and has no white space. *)
Lemma float_unsigned (c : ascii) (l : list ascii) :
  is_digit c = true ->
  forallb (fun c => negb (is_space c)) (c :: l) = true ->
  Py.float (string_of_list_ascii (c :: l)) =
  match mantissa (c :: l) false 0%Z 0 0 with
  | Some (num, scale) => Ok (inject_Z num / inject_Z (10 ^ Z.of_nat scale))%Q
  | None => Err ValueError
  end.
Proof.
  intros Hc Hsp. unfold Py.float. rewrite (strip_id _ Hsp).
  rewrite (is_digit_not_sign c l Hc). reflexivity.
Qed.

Lemma Qdiv_inject_eq (A B C D : Z) :
  (0 < B)%Z -> (0 < D)%Z -> (A * D = C * B)%Z ->
  (inject_Z A / inject_Z B == inject_Z C / inject_Z D)%Q.
Proof.
  intros HB HD H.
  destruct B as [|b|b]; try lia. destruct D as [|d|d]; try lia.
  rewrite <- !Qmake_Qdiv. unfold Qeq. simpl. lia.
Qed.

Lemma list_ascii_of_string_app (s1 s2 : string) :
  list_ascii_of_string (s1 ++ s2) = list_ascii_of_string s1 ++ list_ascii_of_string s2.
Proof. induction s1 as [|c s1 IH]; cbn; [reflexivity|]. rewrite IH. reflexivity. Qed.

Lemma length_string_of_list_ascii (l : list ascii) :
  String.length (string_of_list_ascii l) = length l.
Proof. induction l as [|c l IH]; cbn; [reflexivity|]. rewrite IH. reflexivity. Qed.

Lemma str_int_nonneg (n : Z) :
  (0 <= n)%Z -> str_int n = string_of_list_ascii (nat_digits n).
Proof.
  intros Hn. unfold str_int. destruct (Z.ltb_spec n 0); [lia|reflexivity].
Qed.

Lemma rjust_nonneg (n : Z) (w : nat) :
  (0 <= n)%Z ->
  rjust (str_int n) w "0" =
  string_of_list_ascii (repeat "0"%char (w - length (nat_digits n)) ++ nat_digits n).
Proof.
  intros Hn. unfold rjust. rewrite (str_int_nonneg n Hn).
  rewrite length_string_of_list_ascii.
  rewrite <- (string_of_list_ascii_of_string
               (string_of_list_ascii (repeat _ _) ++ _)).
  rewrite list_ascii_of_string_app, !list_ascii_of_string_of_list_ascii.
  reflexivity.
Qed.

(** Reading back a zero-padded integer. *)
Lemma float_padded_int (j : nat) (n : Z) :
  (0 <= n)%Z ->
  exists q, Py.float (string_of_list_ascii (repeat "0"%char j ++ nat_digits n)) = Ok q
            /\ (q == inject_Z n)%Q.
Proof.
  intros Hn. destruct (nat_digits_ok n Hn) as (Hd & Hv & Hne & _).
  assert (Hall : forallb is_digit (repeat "0"%char j ++ nat_digits n) = true).
  { rewrite forallb_app, Hd, andb_true_r. apply forallb_forall.
    intros c Hc. apply repeat_spec in Hc. subst c. reflexivity. }
  destruct (repeat "0"%char j ++ nat_digits n) as [|c l] eqn:EL.
  { apply app_eq_nil in EL. destruct EL as [_ E]. contradiction. }
  pose proof Hall as Hc. cbn [forallb] in Hc. apply andb_prop in Hc.
  destruct Hc as [Hc _].
  rewrite (float_unsigned c l Hc (all_digits_not_space _ Hall)).
  rewrite <- (app_nil_r (c :: l)), mantissa_digits by exact Hall.
  cbn [mantissa length Nat.add Nat.eqb].
  eexists. split; [reflexivity|].
  rewrite fold_dstep_start. fold (val (c :: l)). rewrite <- EL.
  rewrite val_app, val_zeros, Hv. cbn. unfold Qeq. simpl. lia.
Qed.

Lemma frac_digits4_ok (r : Z) :
  (0 <= r < 10000)%Z ->
  let F := frac_digits4 r in
  forallb is_digit F = true /\ F <> [] /\ (length F <= 4)%nat /\
  (val F * 10 ^ Z.of_nat (4 - length F) = r)%Z.
Proof.
  intros Hr F.
  destruct (nat_digits_ok r ltac:(lia)) as (Hd & Hv & Hne & Hlen).
  specialize (Hlen 4%nat ltac:(cbn; lia) ltac:(lia)).
  set (D := nat_digits r) in *.
  set (p := repeat "0"%char (4 - length D) ++ D).
  assert (Hp : list_ascii_of_string (rjust (str_int r) 4 "0") = p).
  { rewrite rjust_nonneg by lia. apply list_ascii_of_string_of_list_ascii. }
  assert (Hplen : length p = 4%nat).
  { unfold p. rewrite length_app, repeat_length. lia. }
  assert (Hpd : forallb is_digit p = true).
  { unfold p. rewrite forallb_app, Hd, andb_true_r. apply forallb_forall.
    intros c Hc. apply repeat_spec in Hc. subst c. reflexivity. }
  assert (Hpv : val p = r).
  { unfold p. rewrite val_app, val_zeros, Hv. lia. }
  destruct (strip_zeros_spec (rev p)) as [j Hj].
  unfold F, frac_digits4. rewrite Hp.
  destruct (strip_zeros (rev p)) as [|c l] eqn:ES.
  - rewrite app_nil_r in Hj.
    assert (Hp0 : p = repeat "0"%char j).
    { rewrite <- (rev_involutive p), Hj. apply rev_repeat. }
    rewrite Hp0, val_zeros in Hpv.
    cbn. repeat split; [discriminate|lia|change (dval "0"%char) with 0%Z; lia].
  - assert (Hpp : p = rev (c :: l) ++ repeat "0"%char j).
    { rewrite <- (rev_involutive p), Hj, rev_app_distr, rev_repeat. reflexivity. }
    assert (HlenF : (length (rev (c :: l)) + j = 4)%nat).
    { rewrite <- Hplen, Hpp, length_app, repeat_length. reflexivity. }
    rewrite Hpp in Hpd. rewrite forallb_app in Hpd. apply andb_prop in Hpd.
    destruct Hpd as [HF _].
    repeat split.
    + exact HF.
    + intros E. apply (f_equal (@length ascii)) in E.
      rewrite length_rev in E. discriminate.
    + lia.
    + rewrite Hpp, val_app, val_zeros, repeat_length in Hpv.
      replace (4 - length (rev (c :: l)))%nat with j by lia. lia.
Qed.

(** Reading back the seconds field. *)
Lemma float_round4 (k : Z) :
  (0 <= k)%Z ->
  exists q, Py.float (str_round4 k) = Ok q /\ (q == k # 10000)%Q.
Proof.
  intros Hk. unfold str_round4.
  destruct (Z.ltb_spec k 0) as [H|_]; [lia|]. rewrite Z.abs_eq by lia.
  assert (Hr : (0 <= k mod 10000 < 10000)%Z) by (apply Z.mod_pos_bound; lia).
  destruct (frac_digits4_ok (k mod 10000) Hr) as (HFd & HFne & HFlen & HFv).
  set (F := frac_digits4 (k mod 10000)) in *.
  destruct (nat_digits_ok (k / 10000) ltac:(apply Z.div_pos; lia))
    as (HId & HIv & HIne & _).
  set (I := nat_digits (k / 10000)) in *.
  assert (Hall : forallb (fun c => negb (is_space c)) (I ++ "."%char :: F) = true).
  { rewrite forallb_app, all_digits_not_space by exact HId.
    cbn [forallb]. rewrite all_digits_not_space by exact HFd. reflexivity. }
  cbn [app]. destruct I as [|c l] eqn:EI; [contradiction|].
  pose proof HId as Hc. cbn [forallb] in Hc. apply andb_prop in Hc.
  destruct Hc as [Hc _].
  rewrite <- app_comm_cons.
  rewrite (float_unsigned c (l ++ "."%char :: F) Hc) by (rewrite app_comm_cons; exact Hall).
  rewrite app_comm_cons, mantissa_digits by exact HId.
  cbn [mantissa digit_val].
  change (digit_val "."%char) with (@None Z).
  change (Ascii.eqb "."%char "."%char && negb false)%bool with true.
  rewrite <- (app_nil_r F), mantissa_digits by exact HFd.
  destruct F as [|f F'] eqn:EF; [contradiction|].
  cbn [mantissa length Nat.add Nat.eqb].
  eexists. split; [reflexivity|].
  rewrite <- EF in *. rewrite fold_dstep_start. fold (val (c :: l)).
  rewrite <- EI in *. rewrite HIv.
  rewrite Qmake_Qdiv. apply Qdiv_inject_eq.
  - apply Z.pow_pos_nonneg; lia.
  - lia.
  - set (nf := length F) in *.
    assert (Hpow : (10 ^ Z.of_nat nf * 10 ^ Z.of_nat (4 - nf) = 10000)%Z).
    { rewrite <- Z.pow_add_r by lia. replace (Z.of_nat nf + Z.of_nat (4 - nf))%Z with 4%Z by lia.
      reflexivity. }
    assert (Hdm : k = (10000 * (k / 10000) + k mod 10000)%Z)
      by (apply Z.div_mod; lia).
    rewrite <- HFv in Hdm.
    change (S (length F')) with (length (f :: F')). rewrite <- EF. fold nf.
    set (D := (k / 10000)%Z) in *.
    set (P := (10 ^ Z.of_nat nf)%Z) in *.
    set (Qp := (10 ^ Z.of_nat (4 - nf))%Z) in *.
    rewrite Hdm. rewrite <- Hpow. ring.
Qed.

Lemma split_sp_app (s rest : string) :
  forallb (fun c => negb (Ascii.eqb c " ")) (list_ascii_of_string s) = true ->
  split_sp (s ++ String " " rest) = s :: split_sp rest.
Proof.
  induction s as [|c s IH]; intros H; [reflexivity|].
  cbn [list_ascii_of_string forallb] in H. apply andb_prop in H.
  destruct H as [Hc H].
  cbn [append split_sp].
  rewrite IH by exact H. destruct (Ascii.eqb c " "); [discriminate|reflexivity].
Qed.

Lemma nonspace_no_sp (l : list ascii) :
  forallb (fun c => negb (is_space c)) l = true ->
  forallb (fun c => negb (Ascii.eqb c " ")) l = true.
Proof.
  intros H. apply forallb_forall. intros c Hc. rewrite forallb_forall in H.
  specialize (H c Hc). unfold is_space in H.
  destruct (Ascii.eqb c " "); [discriminate|reflexivity].
Qed.

Lemma DmsToDd_fields (sd sm ss suf : string) (vd vm vs : Q) :
  forallb (fun c => negb (Ascii.eqb c " ")) (list_ascii_of_string sd) = true ->
  forallb (fun c => negb (Ascii.eqb c " ")) (list_ascii_of_string sm) = true ->
  forallb (fun c => negb (Ascii.eqb c " ")) (list_ascii_of_string ss) = true ->
  (exists q, Py.float sd = Ok q /\ (q == vd)%Q) ->
  (exists q, Py.float sm = Ok q /\ (q == vm)%Q) ->
  (exists q, Py.float ss = Ok q /\ (q == vs)%Q) ->
  split_sp suf = [suf] ->
  exists y,
    DmsToDd (sd ++ " " ++ sm ++ " " ++ ss ++ " " ++ suf) = Ok y /\
    (y == if (String.eqb suf "S" || String.eqb suf "W")%bool
          then - (vd + vm / 60 + vs / 3600) else vd + vm / 60 + vs / 3600)%Q.
Proof.
  intros Hd Hm Hs [qd [Ed Qd]] [qm [Em Qm]] [qs [Es Qs]] Hsuf.
  unfold DmsToDd. cbn [append].
  rewrite !split_sp_app by assumption. rewrite Hsuf.
  unfold py_index. cbn -[Py.float String.eqb].
  change (PosDef.Pos.to_nat 1) with 1%nat.
  change (PosDef.Pos.to_nat 2) with 2%nat.
  change (PosDef.Pos.to_nat 3) with 3%nat.
  cbn -[Py.float String.eqb].
  rewrite Ed, Em, Es. cbn -[String.eqb].
  destruct (String.eqb suf "S" || String.eqb suf "W")%bool.
  - eexists. split; [reflexivity|]. rewrite Qd, Qm, Qs. reflexivity.
  - eexists. split; [reflexivity|]. rewrite Qd, Qm, Qs. reflexivity.
Qed.

Lemma str_round4_no_sp (k : Z) :
  (0 <= k)%Z ->
  forallb (fun c => negb (Ascii.eqb c " ")) (list_ascii_of_string (str_round4 k)) = true.
Proof.
  intros Hk. apply nonspace_no_sp. unfold str_round4.
  destruct (Z.ltb_spec k 0) as [H|_]; [lia|].
  rewrite list_ascii_of_string_of_list_ascii. cbn [app].
  assert (Hr : (0 <= Z.abs k mod 10000 < 10000)%Z) by (apply Z.mod_pos_bound; lia).
  destruct (frac_digits4_ok _ Hr) as (HFd & _).
  destruct (nat_digits_ok (Z.abs k / 10000) ltac:(apply Z.div_pos; lia)) as (HId & _).
  rewrite forallb_app, all_digits_not_space by exact HId.
  cbn [forallb]. rewrite all_digits_not_space by exact HFd. reflexivity.
Qed.

Lemma padded_no_sp (j : nat) (n : Z) :
  (0 <= n)%Z ->
  forallb (fun c => negb (Ascii.eqb c " "))
    (list_ascii_of_string (string_of_list_ascii (repeat "0"%char j ++ nat_digits n))) = true.
Proof.
  intros Hn. apply nonspace_no_sp. rewrite list_ascii_of_string_of_list_ascii.
  apply all_digits_not_space. destruct (nat_digits_ok n Hn) as (Hd & _).
  rewrite forallb_app, Hd, andb_true_r. apply forallb_forall.
  intros c Hc. apply repeat_spec in Hc. subst c. reflexivity.
Qed.

Lemma int_nonneg (q : Q) : (0 <= q)%Q -> Py.int q = Qfloor q.
Proof.
  intros Hq. unfold Py.int. destruct (Qle_bool 0 q) eqn:E; [reflexivity|].
  apply Qle_bool_iff in Hq. congruence.
Qed.

Lemma round_half_even_spec (q : Q) :
  (inject_Z (round_half_even q) - (1 # 2) <= q <= inject_Z (round_half_even q) + (1 # 2))%Q.
Proof.
  unfold round_half_even. set (f := Qfloor q).
  pose proof (Qfloor_le q) as H1. pose proof (Qlt_floor q) as H2.
  fold f in H1, H2. rewrite inject_Z_plus in H2. change (inject_Z 1) with 1%Q in H2.
  destruct (Qlt_le_dec (q - inject_Z f) (1 # 2)) as [Hlt|Hge].
  - split; Lqa.lra.
  - destruct (Qeq_bool (q - inject_Z f) (1 # 2)) eqn:Eh.
    + apply Qeq_bool_iff in Eh.
      destruct (Z.even f); rewrite ?inject_Z_plus; change (inject_Z 1) with 1%Q;
        split; Lqa.lra.
    + rewrite inject_Z_plus. change (inject_Z 1) with 1%Q. split; Lqa.lra.
Qed.

End DmsFacts.

(* ------------------------------------------------------------------ *)
(** ** Claims about [DdToDms] and [DmsToDd] *)

Module DmsClaims.
Import Py DmsFacts.

(** The signed range of each axis: latitudes in [-90, 90], longitudes in
    [-180, 180]. *)
Definition axis_range (ax : ELatLon) : Q :=
  match ax with Lat => 90 | Lon => 180 end.

(** C3: for every value [x] of the valid range of its axis, converting it
    to a degrees-minutes-seconds string and reading that back gives a value
    within [1e-4] degrees of [x]. *)
Theorem DmsToDd_DdToDms_roundtrip (ax : ELatLon) (x : Q) :
  (- axis_range ax <= x <= axis_range ax)%Q ->
  exists y, DmsToDd (DdToDms x ax) = Ok y /\ (Qabs (y - x) <= 1 # 10000)%Q.
Proof.
  intros Hx.
  assert (Hax : (axis_range ax <= 180)%Q) by (destruct ax; discriminate).
  set (a := Qabs x).
  assert (Ha0 : (0 <= a)%Q) by apply Qabs_nonneg.
  assert (Ha1 : (a <= 180)%Q).
  { apply Qabs_Qle_condition. split; qlra. }
  unfold DdToDms. change (Py.abs x) with a.
  rewrite (int_nonneg a Ha0).
  set (deg := Qfloor a).
  pose proof (Qfloor_le a) as Hd1. pose proof (Qlt_floor a) as Hd2.
  fold deg in Hd1, Hd2. rewrite inject_Z_plus in Hd2.
  change (inject_Z 1) with 1%Q in Hd2.
  assert (Hdeg : (0 <= deg)%Z).
  { assert (inject_Z (-1) < inject_Z deg)%Q by (change (inject_Z (-1)) with (-1)%Q; qlra).
    rewrite <- Zlt_Qlt in H. lia. }
  set (t := ((a - inject_Z deg) * 60)%Q).
  assert (Ht0 : (0 <= t)%Q) by (unfold t; qlra).
  rewrite (int_nonneg t Ht0).
  set (mn := Qfloor t).
  pose proof (Qfloor_le t) as Hm1. pose proof (Qlt_floor t) as Hm2.
  fold mn in Hm1, Hm2. rewrite inject_Z_plus in Hm2.
  change (inject_Z 1) with 1%Q in Hm2.
  assert (Hmn : (0 <= mn)%Z).
  { assert (inject_Z (-1) < inject_Z mn)%Q by (change (inject_Z (-1)) with (-1)%Q; qlra).
    rewrite <- Zlt_Qlt in H. lia. }
  set (sec := ((a - inject_Z deg - inject_Z mn / 60) * 3600)%Q).
  assert (Hsec : (0 <= sec)%Q) by (unfold sec, t in *; qlra).
  set (k := round4 sec).
  pose proof (round_half_even_spec (sec * inject_Z 10000)) as Hk.
  fold (round4 sec) in Hk. fold k in Hk.
  change (inject_Z 10000) with (10000 # 1)%Q in Hk.
  assert (Hk0 : (0 <= k)%Z).
  { assert (inject_Z (-1) < inject_Z k)%Q by (change (inject_Z (-1)) with (-1)%Q; qlra).
    rewrite <- Zlt_Qlt in H. lia. }
  set (deg_str := match ax with
                  | Lat => rjust (str_int deg) 2 "0"
                  | Lon => rjust (str_int deg) 3 "0"
                  end).
  set (suffix := match ax with
                 | Lat => if Qlt_le_dec x 0 then "S"%string else "N"%string
                 | Lon => if Qlt_le_dec x 0 then "W"%string else "E"%string
                 end).
  assert (Hds : exists w, deg_str =
            string_of_list_ascii (repeat "0"%char (w - length (nat_digits deg))
                                  ++ nat_digits deg)).
  { destruct ax; [exists 2%nat | exists 3%nat]; apply rjust_nonneg; exact Hdeg. }
  destruct Hds as [w Hds].
  assert (Hmstr : str_int mn =
            string_of_list_ascii (repeat "0"%char 0 ++ nat_digits mn))
    by (apply str_int_nonneg; exact Hmn).
  assert (Hval : forall vd vm vs : Q,
             (vd == inject_Z deg)%Q -> (vm == inject_Z mn)%Q -> (vs == k # 10000)%Q ->
             (Qabs ((vd + vm / 60 + vs / 3600) - a) <= 1 # 72000000)%Q).
  { intros vd vm vs E1 E2 E3. rewrite E1, E2, E3, (Qmake_Qdiv k 10000).
    change (inject_Z (Z.pos 10000)) with (10000 # 1)%Q.
    apply Qabs_Qle_condition. unfold sec in Hk. split; qlra. }
  destruct (DmsToDd_fields deg_str (str_int mn) (str_round4 k) suffix
              (inject_Z deg) (inject_Z mn) (k # 10000)) as [y [Ey Qy]].
  - rewrite Hds. apply padded_no_sp. exact Hdeg.
  - rewrite Hmstr. apply padded_no_sp. exact Hmn.
  - apply str_round4_no_sp. exact Hk0.
  - rewrite Hds. apply float_padded_int. exact Hdeg.
  - rewrite Hmstr. apply float_padded_int. exact Hmn.
  - apply float_round4. exact Hk0.
  - unfold suffix. destruct ax, (Qlt_le_dec x 0); reflexivity.
  - exists y. split; [exact Ey|].
    specialize (Hval _ _ _ (Qeq_refl _) (Qeq_refl _) (Qeq_refl _)).
    apply Qabs_Qle_condition in Hval.
    unfold suffix in Qy.
    apply Qabs_Qle_condition.
    destruct ax, (Qlt_le_dec x 0) as [Hneg|Hpos];
      cbv [String.eqb Ascii.eqb Bool.eqb orb] in Qy.
    + assert (a == - x)%Q by (unfold a; apply Qabs_neg; qlra).
      rewrite Qy. split; qlra.
    + assert (a == x)%Q by (unfold a; apply Qabs_pos; exact Hpos).
      rewrite Qy. split; qlra.
    + assert (a == - x)%Q by (unfold a; apply Qabs_neg; qlra).
      rewrite Qy. split; qlra.
    + assert (a == x)%Q by (unfold a; apply Qabs_pos; exact Hpos).
      rewrite Qy. split; qlra.
Qed.

(** Witness of C3: the latitude [51.5] is in range and round-trips. *)
Lemma DmsToDd_DdToDms_roundtrip_witness :
  (- axis_range Lat <= 515 # 10 <= axis_range Lat)%Q /\
  exists y, DmsToDd (DdToDms (515 # 10) Lat) = Ok y /\
            (Qabs (y - (515 # 10)) <= 1 # 10000)%Q.
Proof.
  assert (H : (- axis_range Lat <= 515 # 10 <= axis_range Lat)%Q)
    by (split; apply Qle_bool_iff; reflexivity).
  split; [exact H | exact (DmsToDd_DdToDms_roundtrip Lat (515 # 10) H)].
Defined.

(** C9: [DdToDms(51.5, Lat)] is exactly the string ["51 30 0.0 N"]: the
    degree field padded to two digits, 30 minutes, 0 seconds printed as
    Python prints [round(0.0, 4)], and the letter N for a non-negative
    latitude. *)
Theorem DdToDms_51_5_Lat : DdToDms (515 # 10) Lat = "51 30 0.0 N"%string.
Proof. vm_compute. reflexivity. Qed.

End DmsClaims.

(* ------------------------------------------------------------------ *)
(** ** Facts about the real-number functions *)

Module GeoFacts.
Import Geo.
Local Open Scope R_scope.

Lemma sqrt2_pos : 0 < sqrt 2.
Proof. apply sqrt_lt_R0. lra. Qed.

Lemma DegToRad_0 : DegToRad 0 = 0.
Proof. unfold DegToRad. field. Qed.

Lemma DegToRad_135 : DegToRad 135 = 3 * (PI / 4).
Proof. unfold DegToRad. field. Qed.

(** [1 - e2 = b^2/a^2 > 0] for the WGS84 ellipsoid. *)
Lemma wgs84_e2_lt1 : 0 < 1 - Eccentricity1 6378137.000 6356752.3141.
Proof.
  unfold Eccentricity1.
  replace (1 - (6378137.000 ^ 2 - 6356752.3141 ^ 2) / 6378137.000 ^ 2)
    with (6356752.3141 ^ 2 / 6378137.000 ^ 2) by (field; lra).
  apply Rdiv_lt_0_compat; nra.
Qed.

(** The haversine term does not change when the two points swap. *)
Lemma haversine_a_sym l1 o1 l2 o2 :
  sin ((l2 - l1) / 2) * sin ((l2 - l1) / 2)
  + cos l1 * cos l2 * sin ((o2 - o1) / 2) * sin ((o2 - o1) / 2)
  = sin ((l1 - l2) / 2) * sin ((l1 - l2) / 2)
  + cos l2 * cos l1 * sin ((o1 - o2) / 2) * sin ((o1 - o2) / 2).
Proof.
  replace ((l1 - l2) / 2) with (- ((l2 - l1) / 2)) by field.
  replace ((o1 - o2) / 2) with (- ((o2 - o1) / 2)) by field.
  rewrite !sin_neg. ring.
Qed.

(** The tail of [DistanceBetween] for two equal points, in radians. *)
Lemma dist_same l o :
  (let* sa := py_sqrt (sin ((l - l) / 2) * sin ((l - l) / 2)
          + cos l * cos l * sin ((o - o) / 2) * sin ((o - o) / 2)) in
   let* sb := py_sqrt (1 - (sin ((l - l) / 2) * sin ((l - l) / 2)
          + cos l * cos l * sin ((o - o) / 2) * sin ((o - o) / 2))) in
   Ok (wgs84_earth_equatorial_radius_m * (2 * py_atan2 sa sb))) = Ok 0.
Proof.
  replace ((l - l) / 2) with 0 by field. replace ((o - o) / 2) with 0 by field.
  rewrite sin_0.
  replace (0 * 0 + cos l * cos l * 0 * 0) with 0 by ring.
  replace (1 - 0) with 1 by ring.
  unfold py_sqrt.
  destruct (Rlt_dec 0 0); [lra|]. destruct (Rlt_dec 1 0); [lra|].
  cbn [bind]. rewrite sqrt_0, sqrt_1.
  unfold py_atan2. destruct (Rlt_dec 0 1); [|lra].
  replace (0 / 1) with 0 by field. rewrite atan_0. f_equal. ring.
Qed.

Lemma py_atan2_0 (x : R) : 0 <= x -> py_atan2 0 x = 0.
Proof.
  intros Hx. unfold py_atan2.
  destruct (Rlt_dec 0 x).
  - unfold Rdiv. rewrite Rmult_0_l. apply atan_0.
  - destruct (Rlt_dec x 0); [lra|].
    destruct (Rlt_dec 0 0); [lra|]. destruct (Rlt_dec 0 0); [lra|]. reflexivity.
Qed.

Lemma prod_bound (k s c : R) :
  0 <= k -> -1 <= s <= 1 -> -1 <= c <= 1 -> - k <= k * (s * c) <= k.
Proof.
  intros Hk Hs Hc.
  assert (-1 <= s * c <= 1) by (split; nra).
  split; nra.
Qed.

Definition grid_lat_0 : R := DegToRad 49.

(** How far the sine and cosine terms of [grid_m] can pull it below its
    linear term, for a northing [N >= 0]. *)
Definition grid_slack (N : R) : R :=
  ((3 * N) + (3 * N ^ 2) + ((21/8) * N ^ 3))
  + (((15/8) * N ^ 2) + ((15/8) * N ^ 3)) + (35/24) * N ^ 3.

Lemma grid_m_lower (N ld : R) :
  0 <= N -> 0 <= ld - grid_lat_0 ->
  6356256.909 * 0.9996012717 * ((ld - grid_lat_0) - grid_slack N) <= grid_m N ld.
Proof.
  intros HN Hd. unfold grid_m, GetAiry1830, grid_slack. fold grid_lat_0.
  cbv beta iota zeta.
  set (d := ld - grid_lat_0) in *.
  rewrite (Rmult_assoc _ (sin d) (cos (ld + grid_lat_0))).
  rewrite (Rmult_assoc ((35/24) * N ^ 3) (sin (3 * d))).
  pose proof (prod_bound ((3 * N) + (3 * N ^ 2) + ((21/8) * N ^ 3))
                (sin d) (cos (ld + grid_lat_0))) as B2.
  pose proof (prod_bound (((15/8) * N ^ 2) + ((15/8) * N ^ 3))
                (sin (2 * d)) (cos (2 * (ld + grid_lat_0)))) as B3.
  pose proof (prod_bound ((35/24) * N ^ 3)
                (sin (3 * d)) (cos (3 * (ld + grid_lat_0)))) as B4.
  pose proof (SIN_bound d). pose proof (COS_bound (ld + grid_lat_0)).
  pose proof (SIN_bound (2 * d)). pose proof (COS_bound (2 * (ld + grid_lat_0))).
  pose proof (SIN_bound (3 * d)). pose proof (COS_bound (3 * (ld + grid_lat_0))).
  assert (0 <= N ^ 2) by (apply pow_le; lra).
  assert (0 <= N ^ 3) by (apply pow_le; lra).
  specialize (B2 ltac:(lra) H H0). specialize (B3 ltac:(lra) H1 H2).
  specialize (B4 ltac:(lra) H3 H4).
  assert (Hm1 : d <= (1 + N + ((5/4) * N ^ 2) + ((5/4) * N ^ 3)) * d) by nra.
  apply Rmult_le_compat_l; [lra|]. lra.
Qed.

Lemma grid_step_pos (N : R) : 0 <= N -> 0 < grid_step N.
Proof.
  intros HN. unfold grid_step, GetAiry1830. cbv beta iota zeta.
  apply Rdiv_lt_0_compat; lra.
Qed.

(** From a state whose [lat_dash] is [K] steps short of the threshold
    [T], the loop ends. *)
Lemma grid_loop_from (N : R) (HN : 0 <= N) :
  let T := grid_slack N + (N + 100000) / (6356256.909 * 0.9996012717) + 1 in
  forall (K : nat) (st : grid_state),
    0 <= gs_lat_dash st - grid_lat_0 ->
    T <= gs_lat_dash st - grid_lat_0 + INR K * grid_step N ->
    exists st', grid_loop N st st'.
Proof.
  intros T K. pose proof (grid_step_pos N HN) as Hd.
  induction K as [|K IH]; intros st H0 HT.
  - destruct (Rge_dec (N - (-100000) - gs_m st) 0.001) as [C|C].
    + exists (grid_body N st). apply grid_loop_iter; [exact C|].
      apply grid_loop_done. unfold grid_cond, grid_body. cbn [gs_m].
      pose proof (grid_m_lower N (gs_lat_dash st) HN H0) as Hm.
      intro C'.
      assert (Hslack : 0 <= grid_slack N).
      { unfold grid_slack. assert (0 <= N ^ 2) by (apply pow_le; lra).
        assert (0 <= N ^ 3) by (apply pow_le; lra). lra. }
      cbn [INR] in HT.
      assert (Hx : (N + 100000) / (6356256.909 * 0.9996012717) + 1 <=
                   gs_lat_dash st - grid_lat_0 - grid_slack N) by (unfold T in HT; lra).
      assert (Hy : N + 100000 + 6356256.909 * 0.9996012717 <=
                   6356256.909 * 0.9996012717 *
                   (gs_lat_dash st - grid_lat_0 - grid_slack N)).
      { apply (Rmult_le_compat_l (6356256.909 * 0.9996012717)) in Hx; [|lra].
        replace (6356256.909 * 0.9996012717 *
                 ((N + 100000) / (6356256.909 * 0.9996012717) + 1))
          with (N + 100000 + 6356256.909 * 0.9996012717) in Hx by (field; lra).
        exact Hx. }
      lra.
    + exists st. apply grid_loop_done. exact C.
  - destruct (Rge_dec (N - (-100000) - gs_m st) 0.001) as [C|C].
    + destruct (IH (grid_body N st)) as [st' Hst'].
      * unfold grid_body. cbn [gs_lat_dash]. lra.
      * unfold grid_body. cbn [gs_lat_dash]. rewrite S_INR in HT. lra.
      * exists st'. apply grid_loop_iter; assumption.
    + exists st. apply grid_loop_done. exact C.
Qed.

Lemma grid_terminates (ntings etings : R) :
  0 <= ntings -> exists printed, GridEastNorthToLatLon ntings etings printed None.
Proof.
  intros HN. pose proof (grid_step_pos ntings HN) as Hd.
  set (T := grid_slack ntings + (ntings + 100000) / (6356256.909 * 0.9996012717) + 1).
  assert (HT : 0 < T).
  { unfold T, grid_slack.
    assert (0 <= ntings ^ 2) by (apply pow_le; lra).
    assert (0 <= ntings ^ 3) by (apply pow_le; lra).
    assert (0 < (ntings + 100000) / (6356256.909 * 0.9996012717))
      by (apply Rdiv_lt_0_compat; lra).
    lra. }
  destruct (archimed_cor1 (grid_step ntings / T)) as [K [HK HK0]].
  { apply Rdiv_lt_0_compat; assumption. }
  assert (HKp : 0 < INR K) by (apply lt_0_INR; exact HK0).
  assert (HKT : T <= INR K * grid_step ntings).
  { apply Rlt_le.
    apply (Rmult_lt_compat_l (T * INR K)) in HK; [|nra].
    replace (T * INR K * / INR K) with T in HK by (field; lra).
    replace (T * INR K * (grid_step ntings / T)) with (INR K * grid_step ntings)
      in HK by (field; lra).
    exact HK. }
  destruct (grid_loop_from ntings HN K (grid_init ntings)) as [st Hst].
  - unfold grid_init. cbn [gs_lat_dash]. unfold grid_lat_0. lra.
  - unfold grid_init. cbn [gs_lat_dash]. unfold grid_lat_0. fold T. lra.
  - exists (gs_printed st). constructor. exact Hst.
Qed.

(** With [ntings = 0] every power of [ntings] vanishes from [m]. *)
Lemma grid_m_zero (ld : R) :
  grid_m 0 ld = 6356256.909 * 0.9996012717 * (ld - DegToRad 49).
Proof. unfold grid_m, GetAiry1830. cbv beta iota zeta. ring. Qed.

End GeoFacts.

(* ------------------------------------------------------------------ *)
(** ** Claims about the real-number functions *)

Module GeoClaims.
Import Geo GeoFacts.
Local Open Scope R_scope.

(** C2: the round trip through ECEF coordinates does not return the
    longitude for the point at latitude 0, longitude 135 degrees, height 0
    on WGS84: its ECEF [x] is non-zero, yet [CartesianToLatLon] answers
    longitude [-45], since [math.atan(y / x)] cannot tell the point from
    its antipode in longitude. *)
Theorem Ecef_roundtrip_lon135 :
  exists x y z,
    LatLonHeightToEcefCartesian (VNum 0) (VNum 135) 0 LatLonDd Wgs84 = ([], Ok (x, y, z)) /\
    x <> 0 /\
    CartesianToLatLon x y z Wgs84 = Ok (0, -45, 0).
Proof.
  set (a := 6378137.000). set (b := 6356752.3141).
  assert (Ha : 0 < a) by (unfold a; lra).
  assert (Hb : 0 < b) by (unfold b; lra).
  assert (Hab : b < a) by (unfold a, b; lra).
  pose proof sqrt2_pos as Hs2.
  assert (Hs22 : sqrt 2 * sqrt 2 = 2) by (apply sqrt_sqrt; lra).
  exists (- (a / sqrt 2)), (a / sqrt 2), 0.
  split; [|split].
  - unfold LatLonHeightToEcefCartesian, convert_format, DegToRad_val.
    cbn [bind ellipsoid_lookup GetWgs84].
    rewrite DegToRad_0, DegToRad_135, sin_0, cos_0, cos_3PI4, sin_3PI4.
    fold a b.
    replace (1 - Eccentricity1 a b * 0 ^ 2) with 1 by ring.
    rewrite sqrt_1.
    f_equal. f_equal. f_equal; [f_equal|]; field; lra.
  - intro H. assert (a / sqrt 2 = 0) by lra.
    unfold Rdiv in H0. apply Rmult_integral in H0. destruct H0; [lra|].
    apply Rinv_neq_0_compat in H0; lra.
  - unfold CartesianToLatLon. cbn [ellipsoid_lookup GetWgs84]. fold a b.
    cbv zeta.
    assert (Hp : sqrt ((- (a / sqrt 2)) ^ 2 + (a / sqrt 2) ^ 2) = a).
    { replace ((- (a / sqrt 2)) ^ 2 + (a / sqrt 2) ^ 2) with (a ^ 2).
      - apply sqrt_pow2. lra.
      - replace ((- (a / sqrt 2)) ^ 2 + (a / sqrt 2) ^ 2)
          with (2 * a ^ 2 / (sqrt 2 * sqrt 2)) by (field; lra).
        rewrite Hs22. field. }
    rewrite Hp.
    replace (a ^ 2 + 0 ^ 2) with (a ^ 2) by ring. rewrite sqrt_pow2 by lra.
    unfold py_div at 1.
    destruct (Req_EM_T (a * a) 0) as [E|_]; [nra|]. cbn [bind].
    unfold py_div at 1.
    destruct (Req_EM_T a 0) as [E|_]; [lra|]. cbn [bind].
    replace (b * 0 / (a * a) * ((1 + Eccentricity2 a b) * (b / a))) with 0 by (field; lra).
    rewrite atan_0, sin_0, cos_0.
    set (e2 := Eccentricity1 a b).
    assert (He2 : 0 < 1 - e2) by exact wgs84_e2_lt1.
    unfold py_div at 1.
    destruct (Req_EM_T (a - e2 * a * 1 ^ 3) 0) as [E|_]; [nra|]. cbn [bind].
    replace ((0 + Eccentricity2 a b * b * 0 ^ 3) / (a - e2 * a * 1 ^ 3)) with 0
      by (field; nra).
    rewrite atan_0, sin_0, cos_0.
    unfold py_div.
    destruct (Req_EM_T (- (a / sqrt 2)) 0) as [E|_].
    { exfalso. assert (a / sqrt 2 > 0) by (apply Rdiv_lt_0_compat; lra). lra. }
    cbn [bind].
    replace (a / sqrt 2 / - (a / sqrt 2)) with (Ropp 1) by (field; lra).
    rewrite atan_opp, atan_1.
    replace (1 - e2 * 0 ^ 2) with 1 by ring. rewrite sqrt_1.
    unfold RadToDeg.
    pose proof PI_RGT_0.
    f_equal. f_equal; [f_equal|]; field; lra.
Qed.

(** C4 (amended): for every northing [ntings >= 0], the northings of the
    grid, the loop of [GridEastNorthToLatLon] ends: [lat_dash] grows by
    the fixed step [(ntings + 100000) / (a * f0)] at each iteration, so
    the computed [m] eventually exceeds [ntings + 100000]; the call then
    returns [None]. *)
Theorem GridEastNorthToLatLon_terminates (ntings etings : R) :
  0 <= ntings -> exists printed, GridEastNorthToLatLon ntings etings printed None.
Proof. apply grid_terminates. Qed.

Lemma GridEastNorthToLatLon_terminates_witness :
  0 <= 313177 /\ exists printed, GridEastNorthToLatLon 313177 651409 printed None.
Proof.
  assert (H : 0 <= 313177) by lra.
  split; [exact H | exact (GridEastNorthToLatLon_terminates 313177 651409 H)].
Defined.

(** Counterexample to C4: for the northing 0 the loop runs exactly twice
    (two [Value] lines after the [Lat dash] line) and the call ends. *)
Lemma GridEastNorthToLatLon_north_0_two_iterations :
  exists printed, GridEastNorthToLatLon 0 400000 printed None /\ length printed = 3%nat.
Proof.
  set (s := grid_step 0).
  assert (Hs : s = 100000 / (6377563.396 * 0.9996012717)).
  { unfold s, grid_step, GetAiry1830. cbv beta iota zeta. f_equal. ring. }
  set (st1 := grid_body 0 (grid_init 0)).
  set (st2 := grid_body 0 st1).
  exists (gs_printed st2). split.
  - constructor. apply grid_loop_iter.
    { unfold grid_cond, grid_init. cbn [gs_m]. lra. }
    fold st1. apply grid_loop_iter.
    { unfold grid_cond, st1, grid_body, grid_init. cbn [gs_m gs_lat_dash].
      rewrite grid_m_zero. fold s. rewrite Hs.
      replace (s + DegToRad 49 - DegToRad 49) with s by ring. lra. }
    fold st2. apply grid_loop_done.
    unfold grid_cond, st2, st1, grid_body, grid_init. cbn [gs_m gs_lat_dash].
    rewrite grid_m_zero. fold s.
    replace (s + (s + DegToRad 49) - DegToRad 49) with (2 * s) by ring.
    rewrite Hs. lra.
  - reflexivity.
Qed.

(** C6 (amended): an ellipsoid value other than [Airy1830] and [Wgs84]
    raises no [InvalidEllipsoid] error.  [CartesianToLatLon] fails with
    [UnboundLocalError] on [a]; [LatLonHeightToEcefCartesian], once its
    coordinates are converted, prints ["Invalid ellipsoid!"] and then
    fails with the same [UnboundLocalError] (a failed conversion raises
    first). *)
Theorem unknown_ellipsoid_unbound_local (tag : nat) :
  (forall x y z, CartesianToLatLon x y z (OtherValue tag) = Err (UnboundLocalError "a")) /\
  (forall lat lon height coord_format,
     LatLonHeightToEcefCartesian lat lon height coord_format (OtherValue tag) =
     match convert_format coord_format lat lon with
     | Ok _ => (["Invalid ellipsoid!"%string], Err (UnboundLocalError "a"))
     | Err e => ([], Err e)
     end).
Proof.
  split.
  - intros x y z. reflexivity.
  - intros lat lon height coord_format. unfold LatLonHeightToEcefCartesian.
    destruct (convert_format coord_format lat lon) as [[la lo]|e]; reflexivity.
Qed.

(** Counterexample to C6: both conversions, called with an unknown
    ellipsoid, end in [UnboundLocalError]. *)
Lemma unknown_ellipsoid_counterexample :
  LatLonHeightToEcefCartesian (VNum 51) (VNum 0) 0 LatLonDd (OtherValue 3) =
    (["Invalid ellipsoid!"%string], Err (UnboundLocalError "a")) /\
  CartesianToLatLon 3980000 0 4970000 (OtherValue 3) = Err (UnboundLocalError "a").
Proof. split; reflexivity. Qed.

(** C8: [DistanceBetween p p] is [0] for every point [p], and
    [DistanceBetween] is symmetric in its two points, in degrees and in
    radians. *)
Theorem DistanceBetween_zero_symmetric :
  (forall lat lon degrees, DistanceBetween lat lon lat lon degrees = Ok 0) /\
  (forall lat_1 lon_1 lat_2 lon_2 degrees,
      DistanceBetween lat_1 lon_1 lat_2 lon_2 degrees =
      DistanceBetween lat_2 lon_2 lat_1 lon_1 degrees).
Proof.
  split.
  - intros lat lon degrees. unfold DistanceBetween.
    destruct degrees; cbv beta iota zeta; apply dist_same.
  - intros lat_1 lon_1 lat_2 lon_2 degrees. unfold DistanceBetween.
    destruct degrees; cbv beta iota zeta; rewrite haversine_a_sym; reflexivity.
Qed.

(** C10: every terminating call of [GridEastNorthToLatLon] returns
    [None]. *)
Theorem GridEastNorthToLatLon_returns_None (ntings etings : R)
    (printed : list grid_print) (ret : option (R * R)) :
  GridEastNorthToLatLon ntings etings printed ret -> ret = None.
Proof. intros H. inversion H. reflexivity. Qed.

Lemma GridEastNorthToLatLon_returns_None_witness :
  exists printed ret, GridEastNorthToLatLon 0 400000 printed ret /\ ret = None.
Proof.
  destruct (grid_terminates 0 400000 (Rle_refl 0)) as [printed H].
  exists printed, None. split; [exact H|].
  exact (GridEastNorthToLatLon_returns_None 0 400000 printed None H).
Defined.

(** In exact arithmetic, [Extrapolate] with distance [0] returns its
    starting point for every latitude in [-90, 90] (degrees). *)
Theorem Extrapolate_zero_distance_exact (lat lon brg : R) :
  -90 <= lat <= 90 -> Extrapolate lat lon brg 0 true = Ok (lat, lon).
Proof.
  intros Hlat. unfold Extrapolate. cbv beta iota zeta.
  replace (0 / wgs84_earth_equatorial_radius_m) with 0
    by (unfold wgs84_earth_equatorial_radius_m; field).
  rewrite sin_0, cos_0.
  set (la := DegToRad lat).
  replace (sin la * 1 + cos la * 0 * cos (DegToRad brg)) with (sin la) by ring.
  pose proof (SIN_bound la) as Hs.
  pose proof PI_RGT_0 as Hpi.
  assert (Hla : - (PI / 2) <= la <= PI / 2).
  { unfold la, DegToRad. split.
    - apply (Rmult_le_reg_r 180); [lra|].
      replace (DegToRad lat * 180) with (lat * PI) by (unfold DegToRad; field).
      unfold Rdiv. nra.
    - apply (Rmult_le_reg_r 180); [lra|]. unfold Rdiv. nra. }
  unfold py_asin.
  destruct (Rlt_dec (sin la) (-1)); [lra|]. destruct (Rlt_dec 1 (sin la)); [lra|].
  cbn [bind]. rewrite asin_sin by exact Hla.
  replace (sin (DegToRad brg) * 0 * cos la) with 0 by ring.
  rewrite py_atan2_0.
  - unfold la, RadToDeg, DegToRad. f_equal. f_equal; field; lra.
  - assert (sin la * sin la <= 1) by nra. lra.
Qed.

Lemma Extrapolate_zero_distance_exact_witness :
  -90 <= 52.65757 <= 90 /\
  Extrapolate 52.65757 1.71792 90 0 true = Ok (52.65757, 1.71792).
Proof.
  assert (H : -90 <= 52.65757 <= 90) by lra.
  split; [exact H | exact (Extrapolate_zero_distance_exact _ _ _ H)].
Defined.

End GeoClaims.

(* ------------------------------------------------------------------ *)
(** ** Facts about [Egm.GetHeight] *)

Module EgmFacts.
Import Egm.
Local Open Scope Q_scope.

Lemma Py_int_inject (q : Q) (k : Z) : q == inject_Z k -> Py.int q = k.
Proof.
  intros H. unfold Py.int.
  destruct (Qle_bool 0 q).
  - rewrite H. apply Qfloor_Z.
  - assert (E : - q == inject_Z (- k)) by (rewrite H, inject_Z_opp; reflexivity).
    rewrite E, Qfloor_Z. lia.
Qed.

(** [int(x1 / 0.25)] and [int(x2 / 0.25)] are [floor(x / 0.25)] and the
    next integer. *)
Lemma int_cell (x : Q) :
  Py.int ((x - py_mod x StepSize) / StepSize) = Qfloor (x / StepSize).
Proof.
  apply Py_int_inject. unfold py_mod, StepSize. field.
Qed.

Lemma int_cell_next (x : Q) :
  Py.int ((x - py_mod x StepSize + StepSize) / StepSize) = (Qfloor (x / StepSize) + 1)%Z.
Proof.
  apply Py_int_inject. rewrite inject_Z_plus. unfold py_mod, StepSize.
  change (inject_Z 1) with 1. field.
Qed.

Lemma py_index_cases {A} (l : list A) (i : Z) :
  ((- Z.of_nat (length l) <= i < Z.of_nat (length l))%Z /\
     exists x, py_index l i = Ok x /\ In x l) \/
  (~ (- Z.of_nat (length l) <= i < Z.of_nat (length l))%Z /\
     py_index l i = Err IndexError).
Proof.
  unfold py_index.
  set (n := Z.of_nat (length l)).
  set (j := if (i <? 0)%Z then (i + n)%Z else i).
  assert (Hj : (- n <= i < n)%Z <-> (0 <= j < n)%Z).
  { unfold j. destruct (Z.ltb_spec i 0); lia. }
  destruct ((j <? 0)%Z || (n <=? j)%Z)%bool eqn:E.
  - right. split; [|reflexivity].
    rewrite Hj. apply Bool.orb_true_iff in E.
    destruct E as [E|E]; [apply Z.ltb_lt in E | apply Z.leb_le in E]; lia.
  - apply Bool.orb_false_iff in E. destruct E as [E1 E2].
    apply Z.ltb_ge in E1. apply Z.leb_gt in E2.
    left. split; [apply Hj; lia|].
    assert (Hlt : (Z.to_nat j < length l)%nat) by (unfold n in E2; lia).
    destruct (nth_error l (Z.to_nat j)) as [x|] eqn:Ex.
    + exists x. split; [reflexivity|]. eapply nth_error_In. exact Ex.
    + apply nth_error_None in Ex. lia.
Qed.

Lemma is_rect_spec (g : list (list Q)) (rows cols : nat) :
  is_rect g rows cols = true ->
  length g = rows /\ forall row, In row g -> length row = cols.
Proof.
  unfold is_rect. intros H. apply andb_prop in H. destruct H as [H1 H2].
  split; [apply Nat.eqb_eq; exact H1|].
  intros row Hr. rewrite forallb_forall in H2. apply Nat.eqb_eq. apply H2. exact Hr.
Qed.

(** Evaluate the next [py_index] of the goal: it succeeds with an element
    of the list, or raises [IndexError]; [Hr] and [Hc] give the lengths of
    the grid and of its rows. *)
Ltac index_step Hr Hc :=
  match goal with
  | |- context [py_index ?l ?i] =>
      let Hin := fresh "Hin" in let x := fresh "row" in let Hx := fresh "Hx" in
      destruct (py_index_cases l i) as [[Hin [x [-> Hx]]] | [Hin ->]]; cbn [bind];
      try (rewrite Hr in Hin); try (rewrite (Hc l) in Hin by assumption)
  end.

End EgmFacts.

(* ------------------------------------------------------------------ *)
(** ** Claims about [Egm.GetHeight] *)

Module EgmClaims.
Import Egm EgmFacts.
Local Open Scope Q_scope.

(** C5 (amended): [GetHeight] checks no range.  On a grid of [rows] rows
    of [cols] values it raises [IndexError] exactly when
    [floor(lat / 0.25)] lies outside [[-rows, rows - 2]] or
    [floor(lon / 0.25)] outside [[-cols, cols - 2]], and returns a height
    otherwise: negative indices wrap around to the other end of the
    grid. *)
Theorem GetHeight_index_window (g : list (list Q)) (rows cols : nat) (lat lon : Q) :
  is_rect g rows cols = true ->
  (in_grid_window rows cols lat lon -> exists h, GetHeight g lat lon = Ok h) /\
  (~ in_grid_window rows cols lat lon -> GetHeight g lat lon = Err IndexError).
Proof.
  intros Hg. destruct (is_rect_spec g rows cols Hg) as [Hr Hc].
  unfold in_grid_window.
  unfold GetHeight. cbv zeta.
  rewrite !int_cell_next, !int_cell.
  set (ky := Qfloor (lat / StepSize)). set (kx := Qfloor (lon / StepSize)).
  repeat index_step Hr Hc.
  all: split; intros Hw; [ try (exfalso; lia); eexists; reflexivity
                         | try reflexivity; exfalso; lia ].
Qed.

Lemma GetHeight_index_window_witness :
  is_rect row_index_grid 721 1441 = true /\
  ((in_grid_window 721 1441 (-(1 # 10)) 10 ->
      exists h, GetHeight row_index_grid (-(1 # 10)) 10 = Ok h) /\
   (~ in_grid_window 721 1441 (-(1 # 10)) 10 ->
      GetHeight row_index_grid (-(1 # 10)) 10 = Err IndexError)).
Proof.
  assert (H : is_rect row_index_grid 721 1441 = true) by (vm_compute; reflexivity).
  split; [exact H | exact (GetHeight_index_window _ _ _ _ _ H)].
Defined.

(** Counterexample to C5: the latitude [-0.1] lies below the grid, yet on
    a grid of the EGM96 shape [GetHeight] returns a height, read from the
    last row (index [-1]) and the first. *)
Lemma GetHeight_below_grid_wraps :
  exists h, GetHeight row_index_grid (-(1 # 10)) 10 = Ok h /\ h == 288.
Proof. eexists. split; [vm_compute; reflexivity | reflexivity]. Qed.


End EgmClaims.

(* ------------------------------------------------------------------ *)
(** ** Interval arithmetic for real expressions

    Closed intervals with rational end points, each operation rounded
    outwards and proved to enclose the exact real result.  [PI] is enclosed
    by Machin's series ([Stdlib.Reals.Machin]), the sine by its Taylor
    polynomials ([sin_bound]).  An expression is evaluated once to an
    interval by computation, and [ieval_ok] carries the enclosure over to the
    real number it denotes. *)

Module Itv.
Local Open Scope R_scope.

(** Closed intervals with rational end points. *)
Record itv : Type := mk { lo : Q; hi : Q }.

Definition contains (i : itv) (x : R) : Prop := Q2R (lo i) <= x <= Q2R (hi i).

(** Outward rounding to about [prec] significant bits. *)
Definition prec : Z := 32.
Definition shift (q : Q) : positive :=
  Z.to_pos (Z.shiftl 1 (prec - (Z.log2 (Z.abs (Qnum q)) - Z.log2 (Zpos (Qden q))))).
Definition rd (q : Q) : Q :=
  let s := shift q in Qmake (Qfloor (q * Qmake (Zpos s) 1)) s.
Definition ru (q : Q) : Q :=
  let s := shift q in Qmake (Qceiling (q * Qmake (Zpos s) 1)) s.

Lemma Q2R_rd (q : Q) : Q2R (rd q) <= Q2R q.
Proof.
  apply Qle_Rle. unfold rd. generalize (shift q). intro s.
  pose proof (Qfloor_le (q * Qmake (Zpos s) 1)) as H.
  set (z := Qfloor (q * Qmake (Zpos s) 1)) in *.
  unfold Qle in *. simpl in *. nia.
Qed.

Lemma Q2R_ru (q : Q) : Q2R q <= Q2R (ru q).
Proof.
  apply Qle_Rle. unfold ru. generalize (shift q). intro s.
  pose proof (Qle_ceiling (q * Qmake (Zpos s) 1)) as H.
  set (z := Qceiling (q * Qmake (Zpos s) 1)) in *.
  unfold Qle in *. simpl in *. nia.
Qed.

Definition qmin (a b : Q) : Q := if Qle_bool a b then a else b.
Definition qmax (a b : Q) : Q := if Qle_bool a b then b else a.

Lemma qmin_le_l a b : Q2R (qmin a b) <= Q2R a.
Proof.
  unfold qmin. destruct (Qle_bool a b) eqn:E; [lra|].
  apply Qle_Rle. apply Qlt_le_weak. apply Qnot_le_lt. intro H.
  apply Qle_bool_iff in H. congruence.
Qed.
Lemma qmin_le_r a b : Q2R (qmin a b) <= Q2R b.
Proof.
  unfold qmin. destruct (Qle_bool a b) eqn:E; [|lra].
  apply Qle_Rle. apply Qle_bool_iff. exact E.
Qed.
Lemma qmax_ge_l a b : Q2R a <= Q2R (qmax a b).
Proof.
  unfold qmax. destruct (Qle_bool a b) eqn:E; [|lra].
  apply Qle_Rle. apply Qle_bool_iff. exact E.
Qed.
Lemma qmax_ge_r a b : Q2R b <= Q2R (qmax a b).
Proof.
  unfold qmax. destruct (Qle_bool a b) eqn:E; [lra|].
  apply Qle_Rle. apply Qlt_le_weak. apply Qnot_le_lt. intro H.
  apply Qle_bool_iff in H. congruence.
Qed.

Definition iadd (i j : itv) : itv := mk (rd (lo i + lo j)%Q) (ru (hi i + hi j)%Q).
Definition isub (i j : itv) : itv := mk (rd (lo i - hi j)%Q) (ru (hi i - lo j)%Q).
Definition ineg (i : itv) : itv := mk (- hi i)%Q (- lo i)%Q.
Definition imul (i j : itv) : itv :=
  let a := (lo i * lo j)%Q in let b := (lo i * hi j)%Q in
  let c := (hi i * lo j)%Q in let d := (hi i * hi j)%Q in
  mk (rd (qmin (qmin a b) (qmin c d))) (ru (qmax (qmax a b) (qmax c d))).

Lemma iadd_ok i j x y : contains i x -> contains j y -> contains (iadd i j) (x + y).
Proof.
  unfold contains, iadd; cbn [lo hi]; intros [] [].
  pose proof (Q2R_rd (lo i + lo j)%Q); pose proof (Q2R_ru (hi i + hi j)%Q).
  rewrite Q2R_plus in *. lra.
Qed.

Lemma isub_ok i j x y : contains i x -> contains j y -> contains (isub i j) (x - y).
Proof.
  unfold contains, isub; cbn [lo hi]; intros [] [].
  pose proof (Q2R_rd (lo i - hi j)%Q); pose proof (Q2R_ru (hi i - lo j)%Q).
  rewrite Q2R_minus in *. lra.
Qed.

Lemma ineg_ok i x : contains i x -> contains (ineg i) (- x).
Proof.
  unfold contains, ineg; cbn [lo hi]; intros []. rewrite !Q2R_opp. lra.
Qed.

Lemma mul_corner_lower a b c d x y :
  a <= x <= b -> c <= y <= d ->
  a * c <= x * y \/ a * d <= x * y \/ b * c <= x * y \/ b * d <= x * y.
Proof.
  intros Hx Hy.
  destruct (Rle_lt_dec 0 y).
  - assert (a * y <= x * y) by nra.
    destruct (Rle_lt_dec 0 a); [left; nra | right; left; nra].
  - assert (b * y <= x * y) by nra.
    destruct (Rle_lt_dec 0 b); [right; right; left; nra | right; right; right; nra].
Qed.

Lemma mul_corner_upper a b c d x y :
  a <= x <= b -> c <= y <= d ->
  x * y <= a * c \/ x * y <= a * d \/ x * y <= b * c \/ x * y <= b * d.
Proof.
  intros Hx Hy.
  destruct (Rle_lt_dec 0 y).
  - assert (x * y <= b * y) by nra.
    destruct (Rle_lt_dec 0 b); [right; right; right; nra | right; right; left; nra].
  - assert (x * y <= a * y) by nra.
    destruct (Rle_lt_dec 0 a); [right; left; nra | left; nra].
Qed.

Lemma imul_ok i j x y : contains i x -> contains j y -> contains (imul i j) (x * y).
Proof.
  unfold contains, imul; cbn [lo hi]; intros Hx Hy.
  set (a := (lo i * lo j)%Q). set (b := (lo i * hi j)%Q).
  set (c := (hi i * lo j)%Q). set (d := (hi i * hi j)%Q).
  pose proof (Q2R_rd (qmin (qmin a b) (qmin c d))).
  pose proof (Q2R_ru (qmax (qmax a b) (qmax c d))).
  pose proof (qmin_le_l (qmin a b) (qmin c d)). pose proof (qmin_le_r (qmin a b) (qmin c d)).
  pose proof (qmin_le_l a b). pose proof (qmin_le_r a b).
  pose proof (qmin_le_l c d). pose proof (qmin_le_r c d).
  pose proof (qmax_ge_l (qmax a b) (qmax c d)). pose proof (qmax_ge_r (qmax a b) (qmax c d)).
  pose proof (qmax_ge_l a b). pose proof (qmax_ge_r a b).
  pose proof (qmax_ge_l c d). pose proof (qmax_ge_r c d).
  assert (Ea : Q2R a = Q2R (lo i) * Q2R (lo j)) by apply Q2R_mult.
  assert (Eb : Q2R b = Q2R (lo i) * Q2R (hi j)) by apply Q2R_mult.
  assert (Ec : Q2R c = Q2R (hi i) * Q2R (lo j)) by apply Q2R_mult.
  assert (Ed : Q2R d = Q2R (hi i) * Q2R (hi j)) by apply Q2R_mult.
  pose proof (mul_corner_lower _ _ _ _ _ _ Hx Hy).
  pose proof (mul_corner_upper _ _ _ _ _ _ Hx Hy).
  split; lra.
Qed.

Lemma Q2R_inject_Z (z : Z) : Q2R (inject_Z z) = IZR z.
Proof. unfold Q2R, inject_Z. simpl. field. Qed.

Lemma Q2R_0 : Q2R 0 = 0.
Proof. unfold Q2R. simpl. field. Qed.

Lemma Q2R_1 : Q2R 1 = 1.
Proof. unfold Q2R. simpl. field. Qed.

(** Reciprocal of an interval that does not contain [0]. *)
Definition iinv (i : itv) : option itv :=
  if (negb (Qle_bool (lo i) 0) || negb (Qle_bool 0 (hi i)))%bool
  then Some (mk (rd (/ hi i)) (ru (/ lo i)))
  else None.

Lemma Qle_bool_false (a b : Q) : Qle_bool a b = false -> Q2R b < Q2R a.
Proof.
  intros E. apply Qlt_Rlt. apply Qnot_le_lt. intro H.
  apply Qle_bool_iff in H. congruence.
Qed.

Lemma Qle_bool_true (a b : Q) : Qle_bool a b = true -> Q2R a <= Q2R b.
Proof. intros E. apply Qle_Rle. apply Qle_bool_iff. exact E. Qed.

Lemma Q2R_neq0 (q : Q) : Q2R q <> 0 -> ~ q == 0.
Proof. intros H E. apply H. rewrite (Qeq_eqR _ _ E). unfold Q2R. simpl. ring. Qed.

Lemma Rinv_le_neg (a b : R) : b < 0 -> a <= b -> / b <= / a.
Proof.
  intros Hb Hab.
  assert (/ (- a) <= / (- b)) by (apply Rinv_le_contravar; lra).
  rewrite !Rinv_opp in H. lra.
Qed.

Lemma iinv_ok i j y : contains i y -> iinv i = Some j -> contains j (/ y).
Proof.
  unfold iinv, contains. intros [H1 H2] E.
  pose proof (Q2R_rd (/ hi i)) as Hrd. pose proof (Q2R_ru (/ lo i)) as Hru.
  assert (Hc : (0 < Q2R (lo i) \/ Q2R (hi i) < 0) /\
               j = mk (rd (/ hi i)) (ru (/ lo i))).
  { destruct (Qle_bool (lo i) 0) eqn:E1; destruct (Qle_bool 0 (hi i)) eqn:E2;
      cbn in E; try discriminate; injection E as <-; split; auto.
    - right. apply Qle_bool_false in E2. rewrite Q2R_0 in E2. exact E2.
    - left. apply Qle_bool_false in E1. rewrite Q2R_0 in E1. exact E1.
    - left. apply Qle_bool_false in E1. rewrite Q2R_0 in E1. exact E1. }
  destruct Hc as [Hc ->]. cbn [lo hi].
  rewrite Q2R_inv in Hrd by (apply Q2R_neq0; lra).
  rewrite Q2R_inv in Hru by (apply Q2R_neq0; lra).
  destruct Hc as [Hc | Hc].
  - assert (/ Q2R (hi i) <= / y) by (apply Rinv_le_contravar; lra).
    assert (/ y <= / Q2R (lo i)) by (apply Rinv_le_contravar; lra). split; lra.
  - assert (/ Q2R (hi i) <= / y) by (apply Rinv_le_neg; lra).
    assert (/ y <= / Q2R (lo i)) by (apply Rinv_le_neg; lra). split; lra.
Qed.

Lemma Q2R_Qred (q : Q) : Q2R (Qred q) = Q2R q.
Proof. apply Qeq_eqR. apply Qred_correct. Qed.

(** Square root, with end points checked by squaring. *)
Definition sqrt_scale : positive := Eval compute in (2 ^ 60)%positive.
Definition sq_scale : Q := Qmake (Zpos (sqrt_scale * sqrt_scale)) 1.

Definition isqrt (i : itv) : option itv :=
  let sl := Qmake (Z.sqrt (Qfloor (lo i * sq_scale))) sqrt_scale in
  let sh := Qmake (Z.sqrt (Qceiling (hi i * sq_scale)) + 1) sqrt_scale in
  if (Qle_bool 0 (lo i) && Qle_bool 0 sl && Qle_bool (sl * sl) (lo i)
      && Qle_bool 0 sh && Qle_bool (hi i) (sh * sh))%bool
  then Some (mk sl sh) else None.

Lemma isqrt_ok i j x : contains i x -> isqrt i = Some j -> contains j (sqrt x).
Proof.
  unfold isqrt, contains. intros [H1 H2].
  set (sl := Qmake (Z.sqrt (Qfloor (lo i * sq_scale))) sqrt_scale).
  set (sh := Qmake (Z.sqrt (Qceiling (hi i * sq_scale)) + 1) sqrt_scale).
  destruct (Qle_bool 0 (lo i)) eqn:E1; destruct (Qle_bool 0 sl) eqn:E2;
    destruct (Qle_bool (sl * sl) (lo i)) eqn:E3; destruct (Qle_bool 0 sh) eqn:E4;
    destruct (Qle_bool (hi i) (sh * sh)) eqn:E5; cbn; intro E; try discriminate.
  injection E as <-. cbn [lo hi].
  apply Qle_bool_true in E1, E2, E3, E4, E5.
  rewrite Q2R_0 in E1, E2, E4. rewrite Q2R_mult in E3, E5.
  split.
  - rewrite <- (sqrt_square (Q2R sl)) by lra. apply sqrt_le_1_alt. lra.
  - rewrite <- (sqrt_square (Q2R sh)) by lra. apply sqrt_le_1_alt. lra.
Qed.

(** Natural powers by repeated multiplication, as [pow] unfolds. *)
Fixpoint ipow (i : itv) (n : nat) : itv :=
  match n with
  | O => mk 1 1
  | S m => imul i (ipow i m)
  end.

Lemma ipow_ok i x n : contains i x -> contains (ipow i n) (x ^ n).
Proof.
  intros H. induction n as [|n IH]; cbn [ipow pow].
  - unfold contains; cbn [lo hi]. rewrite Q2R_1. lra.
  - apply imul_ok; assumption.
Qed.

Lemma Rpower_m_half (x : R) : 0 < x -> Rpower x (-0.5) = / sqrt x.
Proof.
  intros Hx. replace (-0.5) with (- / 2) by lra.
  rewrite Rpower_Ropp, Rpower_sqrt by exact Hx. reflexivity.
Qed.

Lemma Rpower_m_three_halves (x : R) : 0 < x -> Rpower x (-1.5) = / (x * sqrt x).
Proof.
  intros Hx. replace (-1.5) with (- (1 + / 2)) by lra.
  rewrite Rpower_Ropp, Rpower_plus, Rpower_1, Rpower_sqrt by exact Hx. reflexivity.
Qed.

Definition irpow_m_half (i : itv) : option itv :=
  if negb (Qle_bool (lo i) 0) then
    match isqrt i with Some s => iinv s | None => None end
  else None.

Definition irpow_m_three_halves (i : itv) : option itv :=
  if negb (Qle_bool (lo i) 0) then
    match isqrt i with Some s => iinv (imul i s) | None => None end
  else None.

Lemma lo_pos i x : contains i x -> negb (Qle_bool (lo i) 0) = true -> 0 < x.
Proof.
  unfold contains. intros [H _] E. apply Bool.negb_true_iff, Qle_bool_false in E.
  rewrite Q2R_0 in E. lra.
Qed.

Lemma irpow_m_half_ok i j x :
  contains i x -> irpow_m_half i = Some j -> contains j (Rpower x (-0.5)).
Proof.
  unfold irpow_m_half. intros H E.
  destruct (negb (Qle_bool (lo i) 0)) eqn:Ep; [|discriminate].
  pose proof (lo_pos i x H Ep) as Hx.
  destruct (isqrt i) as [s|] eqn:Es; [|discriminate].
  rewrite Rpower_m_half by exact Hx.
  apply (iinv_ok s); [|exact E]. apply (isqrt_ok i); assumption.
Qed.

Lemma irpow_m_three_halves_ok i j x :
  contains i x -> irpow_m_three_halves i = Some j -> contains j (Rpower x (-1.5)).
Proof.
  unfold irpow_m_three_halves. intros H E.
  destruct (negb (Qle_bool (lo i) 0)) eqn:Ep; [|discriminate].
  pose proof (lo_pos i x H Ep) as Hx.
  destruct (isqrt i) as [s|] eqn:Es; [|discriminate].
  rewrite Rpower_m_three_halves by exact Hx.
  apply (iinv_ok (imul i s)); [|exact E].
  apply imul_ok; [exact H|]. apply (isqrt_ok i); assumption.
Qed.

(** Rational counterparts of [pow] and [sum_f_R0]. *)
Fixpoint qpow (a : Q) (n : nat) : Q :=
  match n with
  | O => 1
  | S m => (a * qpow a m)%Q
  end.

Lemma Q2R_qpow a n : Q2R (qpow a n) = Q2R a ^ n.
Proof.
  induction n as [|n IH]; cbn [qpow pow]; [apply Q2R_1|].
  rewrite Q2R_mult, IH. reflexivity.
Qed.

Fixpoint qsum (f : nat -> Q) (n : nat) : Q :=
  match n with
  | O => f O
  | S m => Qred (qsum f m + f (S m))%Q
  end.

Lemma Q2R_qsum (f : nat -> Q) (g : nat -> R) n :
  (forall k, Q2R (f k) = g k) -> Q2R (qsum f n) = sum_f_R0 g n.
Proof.
  intros Hfg. induction n as [|n IH]; cbn [qsum sum_f_R0]; [apply Hfg|].
  rewrite Q2R_Qred, Q2R_plus, IH, Hfg. reflexivity.
Qed.

Lemma Q2R_nat (n : nat) : Q2R (inject_Z (Z.of_nat n)) = INR n.
Proof. rewrite Q2R_inject_Z, INR_IZR_INZ. reflexivity. Qed.

Lemma INR_pos_succ (n : nat) : INR (n + 1) <> 0.
Proof. rewrite plus_INR. simpl. pose proof (pos_INR n). lra. Qed.

(** The terms of Machin's series for [PI / 4] in [Stdlib.Reals.Machin]. *)
Definition machin_term (i : nat) : Q :=
  let d := inject_Z (Z.of_nat (2 * i + 1)) in
  (qpow (-1) i * (2 * (qpow (1 # 3) (2 * i + 1) / d) + qpow (1 # 7) (2 * i + 1) / d))%Q.

Lemma Q2R_machin_term i : Q2R (machin_term i) = tg_alt PI_2_3_7_tg i.
Proof.
  unfold machin_term, tg_alt, PI_2_3_7_tg, Ratan_seq.
  assert (Hd : INR (2 * i + 1) <> 0) by apply INR_pos_succ.
  assert (Hq : ~ inject_Z (Z.of_nat (2 * i + 1)) == 0).
  { apply Q2R_neq0. rewrite Q2R_nat. exact Hd. }
  rewrite Q2R_mult, Q2R_plus, Q2R_mult, !Q2R_div by exact Hq.
  rewrite !Q2R_qpow, Q2R_nat.
  replace (Q2R (-1)) with (-1) by (unfold Q2R; simpl; field).
  replace (Q2R (1 # 3)) with (/ 3) by (unfold Q2R; simpl; field).
  replace (Q2R (1 # 7)) with (/ 7) by (unfold Q2R; simpl; field).
  replace (Q2R 2) with 2 by (unfold Q2R; simpl; field).
  reflexivity.
Qed.

Definition machin_n : nat := 10.
Definition pi_lo : Q := Eval vm_compute in rd (4 * qsum machin_term (S (2 * machin_n)))%Q.
Definition pi_hi : Q := Eval vm_compute in ru (4 * qsum machin_term (2 * machin_n))%Q.
Definition pi_itv : itv := mk pi_lo pi_hi.

Lemma pi_itv_ok : contains pi_itv PI.
Proof.
  pose proof (PI_2_3_7_ineq machin_n) as [H1 H2].
  rewrite <- (Q2R_qsum machin_term) in H1, H2 by apply Q2R_machin_term.
  unfold contains, pi_itv; cbn [lo hi].
  assert (E1 : pi_lo = rd (4 * qsum machin_term (S (2 * machin_n)))%Q)
    by (vm_compute; reflexivity).
  assert (E2 : pi_hi = ru (4 * qsum machin_term (2 * machin_n))%Q)
    by (vm_compute; reflexivity).
  rewrite E1, E2.
  pose proof (Q2R_rd (4 * qsum machin_term (S (2 * machin_n)))%Q) as R1.
  pose proof (Q2R_ru (4 * qsum machin_term (2 * machin_n))%Q) as R2.
  rewrite Q2R_mult in R1, R2.
  replace (Q2R 4) with 4 in R1, R2 by (unfold Q2R; simpl; field).
  split; lra.
Qed.

Definition idiv (i j : itv) : option itv :=
  match iinv j with Some v => Some (imul i v) | None => None end.

Lemma idiv_ok i j k x y : contains i x -> contains j y -> idiv i j = Some k -> contains k (x / y).
Proof.
  unfold idiv. intros Hx Hy E. destruct (iinv j) as [v|] eqn:Ev; [|discriminate].
  injection E as <-. apply imul_ok; [exact Hx|]. apply (iinv_ok j); assumption.
Qed.

(** Taylor polynomials of the sine, as [sin_approx] of [Stdlib.Reals.Rtrigo_alt]. *)
Fixpoint zfact (n : nat) : Z :=
  match n with
  | O => 1%Z
  | S m => (Z.of_nat (S m) * zfact m)%Z
  end.

Lemma zfact_ok n : IZR (zfact n) = INR (fact n).
Proof.
  induction n as [|n IH]; [reflexivity|].
  cbn [zfact fact]. rewrite mult_IZR, mult_INR, IH, <- INR_IZR_INZ. reflexivity.
Qed.

Lemma zfact_pos n : (0 < zfact n)%Z.
Proof. induction n as [|n IH]; cbn [zfact]; lia. Qed.

(** Division by a positive integer. *)
Definition idiv_z (i : itv) (z : Z) : itv :=
  mk (rd (lo i / inject_Z z)) (ru (hi i / inject_Z z)).

Lemma idiv_z_ok i x z : (0 < z)%Z -> contains i x -> contains (idiv_z i z) (x / IZR z).
Proof.
  unfold contains, idiv_z. intros Hz [H1 H2]; cbn [lo hi].
  assert (Hz' : 0 < IZR z) by (apply IZR_lt; exact Hz).
  assert (Hq : ~ inject_Z z == 0) by (apply Q2R_neq0; rewrite Q2R_inject_Z; lra).
  pose proof (Q2R_rd (lo i / inject_Z z)). pose proof (Q2R_ru (hi i / inject_Z z)).
  rewrite !Q2R_div, Q2R_inject_Z in * by exact Hq.
  split.
  - apply Rle_trans with (1 := H). unfold Rdiv. apply Rmult_le_compat_r; [|exact H1].
    apply Rlt_le, Rinv_0_lt_compat, Hz'.
  - apply Rle_trans with (2 := H0). unfold Rdiv. apply Rmult_le_compat_r; [|exact H2].
    apply Rlt_le, Rinv_0_lt_compat, Hz'.
Qed.

Lemma sin_term_0 a : sin_term a 0 = a.
Proof. unfold sin_term. cbn. field. Qed.

Lemma sin_term_succ a k :
  sin_term a (S k) = sin_term a k * - (a * a) / IZR (Z.of_nat ((2 * k + 2) * (2 * k + 3))).
Proof.
  unfold sin_term.
  replace (2 * S k + 1)%nat with (S (S (2 * k + 1))) by lia.
  rewrite <- INR_IZR_INZ.
  cbn [fact pow].
  pose proof (INR_fact_neq_0 (2 * k + 1)).
  pose proof (pos_INR k).
  set (sg := (-1) ^ k). set (pw := a ^ (2 * k + 1)).
  set (f := INR (fact (2 * k + 1))) in *.
  replace (INR (S (S (2 * k + 1)) * (S (2 * k + 1) * fact (2 * k + 1))))
    with ((2 * INR k + 3) * ((2 * INR k + 2) * f))
    by (rewrite !mult_INR, !S_INR, plus_INR, mult_INR; cbn; ring).
  replace (INR ((2 * k + 2) * (2 * k + 3)))
    with ((2 * INR k + 2) * (2 * INR k + 3))
    by (rewrite !mult_INR, !plus_INR, mult_INR; cbn; ring).
  field. repeat split; lra.
Qed.

(** The terms and partial sums of [sin_approx], in interval arithmetic; [sq]
    encloses the square of the argument. *)
Fixpoint isin_st (i sq : itv) (n : nat) : itv * itv :=
  match n with
  | O => (i, i)
  | S m =>
      let '(t, s) := isin_st i sq m in
      let t' := idiv_z (imul t (ineg sq)) (Z.of_nat ((2 * m + 2) * (2 * m + 3))) in
      (t', iadd s t')
  end.

Definition isin_approx (i : itv) (n : nat) : itv := snd (isin_st i (imul i i) n).

Lemma isin_st_ok i sq a n :
  contains i a -> contains sq (a * a) ->
  contains (fst (isin_st i sq n)) (sin_term a n) /\
  contains (snd (isin_st i sq n)) (sin_approx a n).
Proof.
  intros Hi Hsq. unfold sin_approx.
  induction n as [|n [IH1 IH2]]; cbn [isin_st sum_f_R0].
  - rewrite sin_term_0. cbn. split; exact Hi.
  - destruct (isin_st i sq n) as [t s]. cbn [fst snd] in *.
    assert (Ht : contains (idiv_z (imul t (ineg sq)) (Z.of_nat ((2 * n + 2) * (2 * n + 3))))
                          (sin_term a (S n))).
    { rewrite sin_term_succ. apply idiv_z_ok; [lia|].
      apply imul_ok; [exact IH1 | apply ineg_ok, Hsq]. }
    split; [exact Ht|]. apply iadd_ok; assumption.
Qed.

Lemma isin_approx_ok i a n : contains i a -> contains (isin_approx i n) (sin_approx a n).
Proof.
  intros H. unfold isin_approx. apply (isin_st_ok i (imul i i) a n H). apply imul_ok; exact H.
Qed.

Definition taylor_n : nat := 3.

Definition sin_lo (t : Q) : Q :=
  if Qle_bool 0 t then lo (isin_approx (mk t t) (2 * taylor_n + 1))
  else (- hi (isin_approx (mk (- t) (- t)) (2 * (taylor_n + 1))))%Q.

Definition sin_hi (t : Q) : Q :=
  if Qle_bool 0 t then hi (isin_approx (mk t t) (2 * (taylor_n + 1)))
  else (- lo (isin_approx (mk (- t) (- t)) (2 * taylor_n + 1)))%Q.

Lemma point_ok (t : Q) : contains (mk t t) (Q2R t).
Proof. unfold contains; cbn [lo hi]. lra. Qed.

Lemma sin_lo_hi_ok t :
  - PI <= Q2R t <= PI -> Q2R (sin_lo t) <= sin (Q2R t) <= Q2R (sin_hi t).
Proof.
  intros Ht. unfold sin_lo, sin_hi.
  destruct (Qle_bool 0 t) eqn:E.
  - apply Qle_bool_true in E. rewrite Q2R_0 in E.
    pose proof (isin_approx_ok _ _ (2 * taylor_n + 1) (point_ok t)) as [A _].
    pose proof (isin_approx_ok _ _ (2 * (taylor_n + 1)) (point_ok t)) as [_ B].
    pose proof (sin_bound (Q2R t) taylor_n) as C. split; lra.
  - apply Qle_bool_false in E. rewrite Q2R_0 in E.
    pose proof (isin_approx_ok _ _ (2 * taylor_n + 1) (point_ok (- t))) as [A _].
    pose proof (isin_approx_ok _ _ (2 * (taylor_n + 1)) (point_ok (- t))) as [_ B].
    rewrite !Q2R_opp in *.
    pose proof (sin_bound (- Q2R t) taylor_n) as C.
    rewrite sin_neg in C. split; lra.
Qed.

(** Sine on an interval inside [[-PI/2, PI/2]], where it increases. *)
Definition isin_reduced (r : itv) : option itv :=
  if (Qle_bool (- (pi_lo / 2)) (lo r) && Qle_bool (hi r) (pi_lo / 2))%bool
  then Some (mk (sin_lo (lo r)) (sin_hi (hi r)))
  else None.

Lemma Q2R_half (q : Q) : Q2R (q / 2) = Q2R q / 2.
Proof.
  rewrite Q2R_div. 2:{ intro E. discriminate E. }
  replace (Q2R 2) with 2 by (unfold Q2R; simpl; field). reflexivity.
Qed.

Lemma isin_reduced_ok r j x : contains r x -> isin_reduced r = Some j -> contains j (sin x).
Proof.
  unfold isin_reduced, contains. intros [H1 H2] E.
  destruct (Qle_bool (- (pi_lo / 2)) (lo r)) eqn:E1; destruct (Qle_bool (hi r) (pi_lo / 2)) eqn:E2;
    cbn in E; try discriminate.
  injection E as <-. cbn [lo hi].
  apply Qle_bool_true in E1, E2. rewrite Q2R_opp, Q2R_half in E1. rewrite Q2R_half in E2.
  pose proof pi_itv_ok as [P1 P2]. cbn [pi_itv lo hi] in P1, P2.
  pose proof PI_RGT_0.
  pose proof (sin_lo_hi_ok (lo r) ltac:(lra)) as [L _].
  pose proof (sin_lo_hi_ok (hi r) ltac:(lra)) as [_ U].
  assert (sin (Q2R (lo r)) <= sin x) by (apply sin_incr_1; lra).
  assert (sin x <= sin (Q2R (hi r))) by (apply sin_incr_1; lra).
  split; lra.
Qed.

Lemma sin_shift (k : nat) (x : R) :
  sin (x - INR k * PI) = if Nat.even k then sin x else - sin x.
Proof.
  induction k as [|k IH].
  - simpl. f_equal. ring.
  - rewrite Nat.even_succ, <- Nat.negb_even, S_INR.
    replace (x - (INR k + 1) * PI) with ((x - INR k * PI) - PI) by ring.
    assert (E : sin (x - INR k * PI - PI) = - sin (x - INR k * PI)).
    { rewrite <- (Ropp_involutive (sin (x - INR k * PI - PI))), <- neg_sin.
      f_equal. f_equal. ring. }
    rewrite E, IH. destruct (Nat.even k); cbn; ring.
Qed.

(** Sine on any interval: shift by a multiple of [PI] towards [0]. *)
Definition isin (i : itv) : option itv :=
  let k := Z.to_nat (Qfloor ((lo i + hi i) / 2 / pi_lo + (1 # 2))) in
  let kq := inject_Z (Z.of_nat k) in
  match isin_reduced (isub i (imul (mk kq kq) pi_itv)) with
  | Some s => Some (if Nat.even k then s else ineg s)
  | None => None
  end.

Lemma isin_ok i j x : contains i x -> isin i = Some j -> contains j (sin x).
Proof.
  unfold isin. intros H E.
  set (k := Z.to_nat (Qfloor ((lo i + hi i) / 2 / pi_lo + (1 # 2)))) in *.
  set (kq := inject_Z (Z.of_nat k)) in *.
  destruct (isin_reduced (isub i (imul (mk kq kq) pi_itv))) as [s|] eqn:Es; [|discriminate].
  injection E as <-.
  assert (Hk : contains (mk kq kq) (INR k)).
  { unfold contains, kq; cbn [lo hi]. rewrite Q2R_nat. lra. }
  pose proof (isin_reduced_ok _ _ _ (isub_ok _ _ _ _ H (imul_ok _ _ _ _ Hk pi_itv_ok)) Es) as Hs.
  rewrite sin_shift in Hs.
  destruct (Nat.even k); [exact Hs|].
  rewrite <- (Ropp_involutive (sin x)). apply ineg_ok. exact Hs.
Qed.

Definition pi_half_itv : itv := mk (pi_lo / 2) (pi_hi / 2).

Definition icos (i : itv) : option itv := isin (iadd pi_half_itv i).

Lemma icos_ok i j x : contains i x -> icos i = Some j -> contains j (cos x).
Proof.
  unfold icos. intros H E. rewrite cos_sin.
  assert (Hp : contains pi_half_itv (PI / 2)).
  { pose proof pi_itv_ok as [P1 P2]. unfold contains, pi_half_itv; cbn [lo hi pi_itv] in *.
    rewrite !Q2R_half. lra. }
  apply (isin_ok _ _ _ (iadd_ok _ _ _ _ Hp H) E).
Qed.

Definition itan (i : itv) : option itv :=
  match isin i, icos i with
  | Some s, Some c => idiv s c
  | _, _ => None
  end.

Lemma itan_ok i j x : contains i x -> itan i = Some j -> contains j (tan x).
Proof.
  unfold itan, tan. intros H E.
  destruct (isin i) as [s|] eqn:Es; [|discriminate].
  destruct (icos i) as [c|] eqn:Ec; [|discriminate].
  apply (idiv_ok s c); [apply (isin_ok i) | apply (icos_ok i) | ]; assumption.
Qed.

(** Real expressions over the operations above, and their interval evaluation.
    [ELet] binds a value at the next level of the environment, [EVar] reads a
    level, so that shared subterms are evaluated once. *)
Inductive expr : Type :=
| EInt (z : Z)
| ECst (q : Q)
| EPi
| EVar (k : nat)
| ELet (a b : expr)
| EAdd (a b : expr)
| ESub (a b : expr)
| EMul (a b : expr)
| EDiv (a b : expr)
| EPow (a : expr) (n : nat)
| ESin (a : expr)
| ECos (a : expr)
| ETan (a : expr)
| ERpowMHalf (a : expr)
| ERpowMThreeHalves (a : expr).

Fixpoint den (env : list R) (e : expr) : R :=
  match e with
  | EInt z => IZR z
  | ECst q => Q2R q
  | EPi => PI
  | EVar k => nth k env 0
  | ELet a b => den (env ++ [den env a]) b
  | EAdd a b => den env a + den env b
  | ESub a b => den env a - den env b
  | EMul a b => den env a * den env b
  | EDiv a b => den env a / den env b
  | EPow a n => den env a ^ n
  | ESin a => sin (den env a)
  | ECos a => cos (den env a)
  | ETan a => tan (den env a)
  | ERpowMHalf a => Rpower (den env a) (-0.5)
  | ERpowMThreeHalves a => Rpower (den env a) (-1.5)
  end.

Definition lift2 (f : itv -> itv -> option itv) (x y : option itv) : option itv :=
  match x, y with
  | Some i, Some j => f i j
  | _, _ => None
  end.

Definition lift1 (f : itv -> option itv) (x : option itv) : option itv :=
  match x with
  | Some i => f i
  | None => None
  end.

Fixpoint ieval (ienv : list itv) (e : expr) : option itv :=
  match e with
  | EInt z => Some (mk (inject_Z z) (inject_Z z))
  | ECst q => Some (mk q q)
  | EPi => Some pi_itv
  | EVar k => nth_error ienv k
  | ELet a b => lift1 (fun i => ieval (ienv ++ [i]) b) (ieval ienv a)
  | EAdd a b => lift2 (fun i j => Some (iadd i j)) (ieval ienv a) (ieval ienv b)
  | ESub a b => lift2 (fun i j => Some (isub i j)) (ieval ienv a) (ieval ienv b)
  | EMul a b => lift2 (fun i j => Some (imul i j)) (ieval ienv a) (ieval ienv b)
  | EDiv a b => lift2 idiv (ieval ienv a) (ieval ienv b)
  | EPow a n => lift1 (fun i => Some (ipow i n)) (ieval ienv a)
  | ESin a => lift1 isin (ieval ienv a)
  | ECos a => lift1 icos (ieval ienv a)
  | ETan a => lift1 itan (ieval ienv a)
  | ERpowMHalf a => lift1 irpow_m_half (ieval ienv a)
  | ERpowMThreeHalves a => lift1 irpow_m_three_halves (ieval ienv a)
  end.

Lemma lift1_ok (f : itv -> option itv) (g : R -> R) x o j :
  (forall i j, contains i x -> f i = Some j -> contains j (g x)) ->
  (forall i, o = Some i -> contains i x) -> lift1 f o = Some j -> contains j (g x).
Proof.
  intros Hf Ho E. destruct o as [i|]; [|discriminate]. exact (Hf i j (Ho i eq_refl) E).
Qed.

Lemma lift2_ok (f : itv -> itv -> option itv) (g : R -> R -> R) x y o1 o2 k :
  (forall i j k, contains i x -> contains j y -> f i j = Some k -> contains k (g x y)) ->
  (forall i, o1 = Some i -> contains i x) -> (forall j, o2 = Some j -> contains j y) ->
  lift2 f o1 o2 = Some k -> contains k (g x y).
Proof.
  intros Hf H1 H2 E. destruct o1 as [i|]; [|discriminate]. destruct o2 as [j|]; [|discriminate].
  exact (Hf i j k (H1 i eq_refl) (H2 j eq_refl) E).
Qed.

Lemma nth_error_Forall2 ienv env k i :
  Forall2 contains ienv env -> nth_error ienv k = Some i -> contains i (nth k env 0).
Proof.
  intros H. revert k. induction H as [|i' x l l' Hix H IH]; intros [|k] E; cbn in *;
    try discriminate.
  - injection E as <-. exact Hix.
  - exact (IH k E).
Qed.

Lemma ieval_ok e : forall ienv env i,
  Forall2 contains ienv env -> ieval ienv e = Some i -> contains i (den env e).
Proof.
  induction e; cbn [ieval den]; intros ienv env r Henv E.
  - injection E as <-. rewrite <- Q2R_inject_Z. apply point_ok.
  - injection E as <-. apply point_ok.
  - injection E as <-. apply pi_itv_ok.
  - exact (nth_error_Forall2 _ _ _ _ Henv E).
  - destruct (ieval ienv e1) as [i|] eqn:E1; cbn in E; [|discriminate].
    apply (IHe2 (ienv ++ [i])); [|exact E].
    apply Forall2_app; [exact Henv|]. constructor; [|constructor].
    exact (IHe1 _ _ _ Henv E1).
  - refine (lift2_ok _ Rplus _ _ _ _ _ _ (fun i => IHe1 _ _ i Henv) (fun i => IHe2 _ _ i Henv) E).
    intros i j l Hi Hj El. injection El as <-. apply iadd_ok; assumption.
  - refine (lift2_ok _ Rminus _ _ _ _ _ _ (fun i => IHe1 _ _ i Henv) (fun i => IHe2 _ _ i Henv) E).
    intros i j l Hi Hj El. injection El as <-. apply isub_ok; assumption.
  - refine (lift2_ok _ Rmult _ _ _ _ _ _ (fun i => IHe1 _ _ i Henv) (fun i => IHe2 _ _ i Henv) E).
    intros i j l Hi Hj El. injection El as <-. apply imul_ok; assumption.
  - refine (lift2_ok _ Rdiv _ _ _ _ _ _ (fun i => IHe1 _ _ i Henv) (fun i => IHe2 _ _ i Henv) E).
    intros i j l; apply idiv_ok.
  - refine (lift1_ok _ (fun x => x ^ n) _ _ _ _ (fun i => IHe _ _ i Henv) E).
    intros i j Hi Ej. injection Ej as <-. apply ipow_ok; assumption.
  - exact (lift1_ok _ sin _ _ _ (fun i j H => isin_ok i j _ H) (fun i => IHe _ _ i Henv) E).
  - exact (lift1_ok _ cos _ _ _ (fun i j H => icos_ok i j _ H) (fun i => IHe _ _ i Henv) E).
  - exact (lift1_ok _ tan _ _ _ (fun i j H => itan_ok i j _ H) (fun i => IHe _ _ i Henv) E).
  - exact (lift1_ok _ (fun x => Rpower x (-0.5)) _ _ _
             (fun i j H => irpow_m_half_ok i j _ H) (fun i => IHe _ _ i Henv) E).
  - exact (lift1_ok _ (fun x => Rpower x (-1.5)) _ _ _
             (fun i j H => irpow_m_three_halves_ok i j _ H) (fun i => IHe _ _ i Henv) E).
Qed.

End Itv.

(* ------------------------------------------------------------------ *)
(** ** [LatLonToGridEastNorth] at the worked example, as an expression *)

Module GridProjFacts.
Import Itv.
Local Open Scope R_scope.

(** The body of [Geo.LatLonToGridEastNorth] at latitude [52.65757] and
    longitude [1.71792]: the values it names once are bound by [ELet], at the
    levels below, in the order the function computes them. *)

Fixpoint lets (l : list expr) (body : expr) : expr :=
  match l with
  | [] => body
  | a :: l' => ELet a (lets l' body)
  end.
Definition F0 := ECst (9996012717 # 10000000000).
Definition deg (x : expr) := EDiv (EMul x EPi) (EInt 180).
Definition a := ECst (6377563396 # 1000).
Definition b := ECst (6356256909 # 1000).
Definition lat := EVar 0.
Definition lat_0 := EVar 1.
Definition lon := EVar 2.
Definition lon_0 := EVar 3.
Definition n := EVar 4.
Definition e2 := EVar 5.
Definition sin_lat := EVar 6.
Definition cos_lat := EVar 7.
Definition tan_lat := EVar 8.
Definition w := EVar 9.
Definition v := EVar 10.
Definition p := EVar 11.
Definition n2 := EVar 12.
Definition m := EVar 13.
Definition dl := EVar 14.
Definition frac (x y : Z) := EDiv (EInt x) (EInt y).
Definition m1 := EMul (EAdd (EAdd (EAdd (EInt 1) n) (EMul (frac 5 4) (EPow n 2)))
                            (EMul (frac 5 4) (EPow n 3))) (ESub lat lat_0).
Definition m2_1 := EAdd (EAdd (EMul (EInt 3) n) (EMul (EInt 3) (EPow n 2)))
                        (EMul (frac 21 8) (EPow n 3)).
Definition m2 := EMul (EMul m2_1 (ESin (ESub lat lat_0))) (ECos (EAdd lat lat_0)).
Definition m3_1 := EAdd (EMul (frac 15 8) (EPow n 2)) (EMul (frac 15 8) (EPow n 3)).
Definition m3_2 := EMul (ESin (EMul (EInt 2) (ESub lat lat_0))) (ECos (EMul (EInt 2) (EAdd lat lat_0))).
Definition m3_3 := EMul (EMul (EMul (frac 35 24) (EPow n 3)) (ESin (EMul (EInt 3) (ESub lat lat_0))))
                        (ECos (EMul (EInt 3) (EAdd lat lat_0))).
Definition m3 := ESub (EMul m3_1 m3_2) m3_3.
Definition shared : list expr :=
  [ deg (ECst (5265757 # 100000)); deg (EInt 49); deg (ECst (171792 # 100000)); deg (EInt (-2));
    EDiv (ESub a b) (EAdd a b);
    EDiv (ESub (EPow a 2) (EPow b 2)) (EPow a 2);
    ESin lat; ECos lat; ETan lat;
    ESub (EInt 1) (EMul e2 (EPow sin_lat 2));
    EMul (EMul a F0) (ERpowMHalf w);
    EMul (EMul (EMul a F0) (ESub (EInt 1) e2)) (ERpowMThreeHalves w);
    ESub (EDiv v p) (EInt 1);
    EMul (EMul b F0) (EAdd (ESub m1 m2) m3);
    ESub lon lon_0 ].
Definition I := EAdd m (EInt (-100000)).
Definition II := EMul (EMul (EDiv v (EInt 2)) sin_lat) cos_lat.
Definition III := EMul (EMul (EMul (EDiv v (EInt 24)) sin_lat) (EPow cos_lat 3))
                       (EAdd (ESub (EInt 5) (EPow tan_lat 2)) (EMul (EInt 9) n2)).
Definition IIIA := EMul (EMul (EMul (EDiv v (EInt 720)) sin_lat) (EPow cos_lat 5))
                        (EAdd (ESub (EInt 61) (EMul (EInt 58) (EPow tan_lat 2))) (EPow tan_lat 4)).
Definition IV := EMul v cos_lat.
Definition V := EMul (EMul (EDiv v (EInt 6)) (EPow cos_lat 3)) (ESub (EDiv v p) (EPow tan_lat 2)).
Definition VI := EMul (EMul (EDiv v (EInt 120)) (EPow cos_lat 5))
  (ESub (EAdd (EAdd (ESub (EInt 5) (EMul (EInt 18) (EPow tan_lat 2))) (EPow tan_lat 4))
              (EMul (EInt 14) n2))
        (EMul (EMul (EInt 58) (EPow tan_lat 2)) n2)).
(** The northing [N] and the easting [E]. *)
Definition eN := lets shared (EAdd (EAdd (EAdd I (EMul II (EPow dl 2))) (EMul III (EPow dl 4))) (EMul IIIA (EPow dl 6))).
Definition eE := lets shared (EAdd (EAdd (EInt 400000) (EMul IV dl)) (EAdd (EMul V (EPow dl 3)) (EMul VI (EPow dl 5)))).

Definition within (o : option itv) (c r : Q) : bool :=
  match o with
  | Some i => (Qle_bool (c - r) (lo i) && Qle_bool (hi i) (c + r))%bool
  | None => false
  end.

Lemma within_ok e c r :
  within (ieval [] e) c r = true -> Rabs (den [] e - Q2R c) <= Q2R r.
Proof.
  unfold within. destruct (ieval [] e) as [i|] eqn:E; [|discriminate].
  intro H. apply andb_prop in H as [H1 H2].
  apply Qle_bool_true in H1, H2. rewrite Q2R_minus in H1. rewrite Q2R_plus in H2.
  pose proof (ieval_ok e [] [] i (Forall2_nil _) E) as [L U].
  apply Rabs_le. lra.
Qed.

(** The expressions denote, term for term, what the function computes. *)
Lemma LatLonToGridEastNorth_as_expr :
  Geo.LatLonToGridEastNorth 52.65757 1.71792 = (den [] eE, den [] eN).
Proof. reflexivity. Qed.

End GridProjFacts.

(* ------------------------------------------------------------------ *)
(** ** Claim about the projection to the national grid *)

Module GridProjClaims.
Import Itv GridProjFacts.
Local Open Scope R_scope.

(** C1: at latitude [52.65757] and longitude [1.71792] the projection
    returns an easting within one metre of [651409.903] and a northing
    within one metre of [313177.270].  In exact reals the model gives
    [E] close to [651409.798] and [N] close to [313177.231]. *)
Theorem LatLonToGridEastNorth_worked_example :
  let '(E, N) := Geo.LatLonToGridEastNorth 52.65757 1.71792 in
  Rabs (E - 651409.903) <= 1 /\ Rabs (N - 313177.270) <= 1.
Proof.
  rewrite LatLonToGridEastNorth_as_expr.
  replace 651409.903 with (Q2R (651409903 # 1000)) by (unfold Q2R; simpl; lra).
  replace 313177.270 with (Q2R (31317727 # 100)) by (unfold Q2R; simpl; lra).
  replace 1 with (Q2R 1) by apply Q2R_1.
  split; apply within_ok; vm_compute; reflexivity.
Qed.

End GridProjClaims.

Module OsGrid.

(** [chr(i)]: a code point in [[0, 0x10FFFF]], anything else raises
    [ValueError]. *)
Definition py_chr (i : Z) : result Z :=
  if ((0 <=? i) && (i <=? 1114111))%Z%bool then Ok i else Err ValueError.

(** [ord(c)] of a character, and the code points of a string. *)
Definition ord (c : ascii) : Z := Z.of_nat (nat_of_ascii c).

Definition codes (s : string) : list Z := map ord (list_ascii_of_string s).

(** [NorthingsEastingsToGrid(ntings, etings, digits)] for an even
    [digits = 2 * half] (the default [digits = 10] is [half = 5]): then
    [digits / 2] is the integral float [half] and [math.pow(10, 5 - half)]
    is rational.  An odd [digits] makes the divisor an irrational power of
    ten and is not modelled.  The returned string is given by its code
    points, since [chr] may produce any character.  [math.floor] of the
    int [e100km + 10] divided by [5] is floor division. *)
Definition NorthingsEastingsToGrid (ntings etings : Q) (half : Z) : result (list Z) :=
  let e100km := Qfloor (etings / 100000) in
  let n100km := Qfloor (ntings / 100000) in
  let l1 := ((19 - n100km) - (19 - n100km) mod 5 + (e100km + 10) / 5)%Z in
  let l2 := ((19 - n100km) * 5 mod 25 + e100km mod 5)%Z in
  let l1 := if (7 <? l1)%Z then (l1 + 1)%Z else l1 in
  let l2 := if (7 <? l2)%Z then (l2 + 1)%Z else l2 in
  let* c1 := py_chr (l1 + ord "A") in
  let* c2 := py_chr (l2 + ord "A") in
  let letter_pair := [c1; c2] in
  let e := Qfloor (Egm.py_mod etings 100000 / 10 ^ (5 - half)) in
  let n := Qfloor (Egm.py_mod ntings 100000 / 10 ^ (5 - half)) in
  let e := Py.rjust (Py.str_int (Py.int (inject_Z e))) (Z.to_nat half) "0" in
  let n := Py.rjust (Py.str_int (Py.int (inject_Z n))) (Z.to_nat half) "0" in
  Ok (letter_pair ++ codes " " ++ codes e ++ codes " " ++ codes n).

End OsGrid.

Module OsGridFacts.
Import OsGrid.

(** The number written by a list of decimal digit code points. *)
Definition dec_value (l : list Z) : Z :=
  fold_left (fun acc d => (acc * 10 + (d - 48))%Z) l 0%Z.

(** The two letters of the grid square [(e100km, n100km)], as computed by
    [NorthingsEastingsToGrid]. *)
Definition letter_codes (e100km n100km : Z) : Z * Z :=
  let l1 := ((19 - n100km) - (19 - n100km) mod 5 + (e100km + 10) / 5)%Z in
  let l2 := ((19 - n100km) * 5 mod 25 + e100km mod 5)%Z in
  let l1 := if (7 <? l1)%Z then (l1 + 1)%Z else l1 in
  let l2 := if (7 <? l2)%Z then (l2 + 1)%Z else l2 in
  ((l1 + 65)%Z, (l2 + 65)%Z).

Definition grid_squares : list (Z * Z) :=
  list_prod (map Z.of_nat (seq 0 7)) (map Z.of_nat (seq 0 13)).

Definition letters_injective_on (sq : list (Z * Z)) : bool :=
  forallb (fun p => forallb (fun p' =>
    implb (Z.eqb (fst (letter_codes (fst p) (snd p))) (fst (letter_codes (fst p') (snd p')))
           && Z.eqb (snd (letter_codes (fst p) (snd p))) (snd (letter_codes (fst p') (snd p'))))%bool
          (Z.eqb (fst p) (fst p') && Z.eqb (snd p) (snd p'))%bool) sq) sq.

Lemma py_chr_ok (i c : Z) : py_chr i = Ok c -> c = i.
Proof.
  unfold py_chr. destruct (_ && _)%bool; intros H; inversion H; reflexivity.
Qed.

Lemma py_chr_in (i : Z) : (0 <= i <= 1114111)%Z -> py_chr i = Ok i.
Proof.
  intros H. unfold py_chr.
  replace ((0 <=? i) && (i <=? 1114111))%Z%bool with true; [reflexivity|].
  symmetry. apply andb_true_intro. split; apply Z.leb_le; lia.
Qed.

Lemma py_chr_neg (i : Z) : (i < 0)%Z -> py_chr i = Err ValueError.
Proof.
  intros H. unfold py_chr. destruct (Z.leb_spec 0 i); [lia|reflexivity].
Qed.

(** Decide a comparison of two rational literals. *)
Ltac qcmp := vm_compute; first [reflexivity | discriminate].

(** Evaluate the next [chr] of the goal, which must succeed. *)
Tactic Notation "chr_step" ident(c) ident(E) :=
  match goal with
  | |- context [py_chr ?i] =>
      destruct (py_chr i) as [c|] eqn:E; cbn [bind]; [apply py_chr_ok in E | discriminate]
  end.

Lemma adjust_not_I (l : Z) : ((if (7 <? l)%Z then (l + 1)%Z else l) + 65)%Z <> 73%Z.
Proof. destruct (Z.ltb_spec 7 l); lia. Qed.

Lemma Qfloor_between (q : Q) (a b : Z) :
  inject_Z a <= q -> q < inject_Z b -> (a <= Qfloor q < b)%Z.
Proof.
  intros H1 H2. split.
  - rewrite <- (Qfloor_Z a). apply Qfloor_resp_le. exact H1.
  - rewrite Zlt_Qlt. eapply Qle_lt_trans; [apply Qfloor_le | exact H2].
Qed.

Lemma py_mod_range (x : Q) : 0 <= Egm.py_mod x 100000 < 100000.
Proof.
  unfold Egm.py_mod. pose proof (Qfloor_le (x / 100000)) as H1.
  pose proof (Qlt_floor (x / 100000)) as H2.
  rewrite inject_Z_plus in H2. change (inject_Z 1) with 1 in H2.
  split; DmsFacts.qlra.
Qed.

Lemma hundred_km (x : Q) (k : Z) :
  0 <= x -> x < inject_Z (k * 100000) -> (0 <= Qfloor (x / 100000) < k)%Z.
Proof.
  intros H1 H2. apply Qfloor_between.
  - change (inject_Z 0) with 0. DmsFacts.qlra.
  - rewrite inject_Z_mult in H2. change (inject_Z 100000) with 100000 in H2.
    DmsFacts.qlra.
Qed.

(** The field for [half] digits: at most [10^half - 1]. *)
Lemma field_range (x : Q) (half : Z) :
  (0 <= half)%Z ->
  (0 <= Qfloor (Egm.py_mod x 100000 / 10 ^ (5 - half)) < 10 ^ half)%Z.
Proof.
  intros Hh. destruct (py_mod_range x) as [Hm1 Hm2].
  set (m := Egm.py_mod x 100000) in *.
  assert (HD : 0 < 10 ^ (5 - half)) by (apply Qpower_0_lt; reflexivity).
  set (D := 10 ^ (5 - half)) in *.
  apply Qfloor_between.
  - change (inject_Z 0) with 0. apply Qle_shift_div_l; [exact HD|].
    rewrite Qmult_0_l. exact Hm1.
  - apply Qlt_shift_div_r; [exact HD|].
    assert (E : inject_Z (10 ^ half) * D == 100000).
    { rewrite Zpower_Qpower by exact Hh. unfold D.
      rewrite <- Qpower_plus by discriminate.
      replace (half + (5 - half))%Z with 5%Z by ring. reflexivity. }
    rewrite E. exact Hm2.
Qed.

Lemma codes_of_list (l : list ascii) :
  codes (string_of_list_ascii l) = map ord l.
Proof. unfold codes. rewrite list_ascii_of_string_of_list_ascii. reflexivity. Qed.

Lemma is_digit_ord (c : ascii) :
  DmsFacts.is_digit c = true -> (48 <= ord c <= 57)%Z /\ DmsFacts.dval c = (ord c - 48)%Z.
Proof.
  unfold DmsFacts.is_digit, DmsFacts.dval, Py.digit_val, ord.
  destruct ((48 <=? nat_of_ascii c)%nat && (nat_of_ascii c <=? 57)%nat)%bool eqn:E;
    [|discriminate].
  intros _. apply andb_prop in E. destruct E as [E1 E2].
  apply Nat.leb_le in E1. apply Nat.leb_le in E2. split; lia.
Qed.

Lemma dec_value_val (l : list ascii) :
  forallb DmsFacts.is_digit l = true -> dec_value (map ord l) = DmsFacts.val l.
Proof.
  unfold dec_value, DmsFacts.val. generalize 0%Z as acc.
  induction l as [|c l IH]; intros acc H; [reflexivity|].
  cbn [forallb] in H. apply andb_prop in H. destruct H as [Hc H].
  cbn [map fold_left]. rewrite IH by exact H. f_equal.
  unfold DmsFacts.dstep. destruct (is_digit_ord c Hc) as [_ ->]. reflexivity.
Qed.

(** A zero-padded field of width [w >= 1] holding [0 <= k < 10^w]. *)
Lemma padded_field (k : Z) (w : Z) :
  (1 <= w)%Z -> (0 <= k < 10 ^ w)%Z ->
  let f := codes (Py.rjust (Py.str_int (Py.int (inject_Z k))) (Z.to_nat w) "0") in
  length f = Z.to_nat w /\ Forall (fun d => (48 <= d <= 57)%Z) f /\ dec_value f = k.
Proof.
  intros Hw Hk f. unfold f.
  rewrite (EgmFacts.Py_int_inject (inject_Z k) k) by reflexivity.
  rewrite DmsFacts.rjust_nonneg by lia. rewrite codes_of_list.
  destruct (DmsFacts.nat_digits_ok k ltac:(lia)) as (Hd & Hv & _ & Hlen).
  specialize (Hlen (Z.to_nat w) ltac:(rewrite Z2Nat.id by lia; lia) ltac:(lia)).
  assert (Hall : forallb DmsFacts.is_digit
                   (repeat "0"%char (Z.to_nat w - length (Py.nat_digits k)) ++ Py.nat_digits k) = true).
  { rewrite forallb_app, Hd, andb_true_r. apply forallb_forall.
    intros c Hc. apply repeat_spec in Hc. subst c. reflexivity. }
  split; [|split].
  - rewrite length_map, length_app, repeat_length. lia.
  - apply Forall_map. apply Forall_forall. intros c Hc.
    rewrite forallb_forall in Hall. apply (is_digit_ord c (Hall c Hc)).
  - rewrite dec_value_val by exact Hall.
    rewrite DmsFacts.val_app, DmsFacts.val_zeros, Hv. ring.
Qed.

Lemma in_range_list (z : Z) (k : nat) :
  (0 <= z < Z.of_nat k)%Z -> In z (map Z.of_nat (seq 0 k)).
Proof.
  intros H. apply in_map_iff. exists (Z.to_nat z). split; [lia|].
  apply in_seq. lia.
Qed.

Lemma letters_injective_grid : letters_injective_on grid_squares = true.
Proof. vm_compute. reflexivity. Qed.

Lemma letters_identify (e n e' n' : Z) :
  (0 <= e < 7)%Z -> (0 <= n < 13)%Z -> (0 <= e' < 7)%Z -> (0 <= n' < 13)%Z ->
  fst (letter_codes e n) = fst (letter_codes e' n') ->
  snd (letter_codes e n) = snd (letter_codes e' n') ->
  e = e' /\ n = n'.
Proof.
  intros He Hn He' Hn' F1 F2.
  pose proof letters_injective_grid as Hinj.
  unfold letters_injective_on in Hinj. rewrite forallb_forall in Hinj.
  assert (Hp : In (e, n) grid_squares) by (apply in_prod; apply in_range_list; lia).
  assert (Hp' : In (e', n') grid_squares) by (apply in_prod; apply in_range_list; lia).
  specialize (Hinj _ Hp). rewrite forallb_forall in Hinj. specialize (Hinj _ Hp').
  cbn [fst snd] in Hinj. rewrite F1, F2, !Z.eqb_refl in Hinj. cbn [andb implb] in Hinj.
  apply andb_prop in Hinj. destruct Hinj as [A B].
  apply Z.eqb_eq in A. apply Z.eqb_eq in B. split; assumption.
Qed.

(** Whenever the call returns, its first two code points are the letters
    of the 100 km square. *)
Lemma NorthingsEastingsToGrid_letters (ntings etings : Q) (half : Z) (s : list Z) :
  NorthingsEastingsToGrid ntings etings half = Ok s ->
  firstn 2 s = [fst (letter_codes (Qfloor (etings / 100000)) (Qfloor (ntings / 100000)));
                snd (letter_codes (Qfloor (etings / 100000)) (Qfloor (ntings / 100000)))].
Proof.
  unfold NorthingsEastingsToGrid, letter_codes. cbv zeta.
  chr_step c1 E1. chr_step c2 E2.
  intros H. injection H as <-. cbn [app firstn]. rewrite E1, E2. reflexivity.
Qed.

End OsGridFacts.

Module OsGridProps.
Import OsGrid OsGridFacts.

(** X3: [NorthingsEastingsToGrid] never uses the letter I: whenever it
    returns, the first two characters of its result differ from "I", and
    the second is always an upper-case letter. *)
Theorem NorthingsEastingsToGrid_no_letter_I (ntings etings : Q) (half : Z) (s : list Z) :
  NorthingsEastingsToGrid ntings etings half = Ok s ->
  exists c1 c2 rest, s = c1 :: c2 :: rest /\
    c1 <> ord "I" /\ c2 <> ord "I" /\ (ord "A" <= c2 <= ord "Z")%Z.
Proof.
  unfold NorthingsEastingsToGrid. cbv zeta.
  chr_step c1 E1. chr_step c2 E2.
  intros H. injection H as <-. do 3 eexists. split; [reflexivity|].
  change (ord "I") with 73%Z. change (ord "A") with 65%Z in *.
  change (ord "Z") with 90%Z.
  assert (A1 : c1 <> 73%Z) by (rewrite E1; apply adjust_not_I).
  assert (A2 : c2 <> 73%Z) by (rewrite E2; apply adjust_not_I).
  assert (R2 : (65 <= c2 <= 90)%Z).
  { rewrite E2. set (n := Qfloor (ntings / 100000)). set (e := Qfloor (etings / 100000)).
    destruct (Z.ltb_spec 7 ((19 - n) * 5 mod 25 + e mod 5));
      Z.div_mod_to_equations; lia. }
  auto.
Qed.

Lemma NorthingsEastingsToGrid_no_letter_I_witness :
  NorthingsEastingsToGrid 313177 651409 5 = Ok (codes "TG 51409 13177") /\
  exists c1 c2 rest, codes "TG 51409 13177" = c1 :: c2 :: rest /\
    c1 <> ord "I" /\ c2 <> ord "I" /\ (ord "A" <= c2 <= ord "Z")%Z.
Proof.
  assert (H : NorthingsEastingsToGrid 313177 651409 5 = Ok (codes "TG 51409 13177"))
    by (vm_compute; reflexivity).
  split; [exact H | exact (NorthingsEastingsToGrid_no_letter_I _ _ _ _ H)].
Defined.

(** X4: On the National Grid (eastings in [[0, 700000)], northings in
    [[0, 1300000)]) and for [digits = 2 * half] with [half >= 1],
    [NorthingsEastingsToGrid] returns two upper-case letters, a space,
    [half] decimal digits, a space and [half] decimal digits: the fields
    are the eastings and northings within the 100 km square, divided by
    [10^(5 - half)] and rounded down, zero-padded. *)
Theorem NorthingsEastingsToGrid_format (ntings etings : Q) (half : Z) :
  0 <= etings < 700000 -> 0 <= ntings < 1300000 -> (1 <= half)%Z ->
  exists c1 c2 de dn,
    NorthingsEastingsToGrid ntings etings half
      = Ok ([c1; c2] ++ codes " " ++ de ++ codes " " ++ dn) /\
    (ord "A" <= c1 <= ord "Z")%Z /\ (ord "A" <= c2 <= ord "Z")%Z /\
    length de = Z.to_nat half /\ length dn = Z.to_nat half /\
    Forall (fun d => ord "0" <= d <= ord "9")%Z de /\
    Forall (fun d => ord "0" <= d <= ord "9")%Z dn /\
    dec_value de = Qfloor (Egm.py_mod etings 100000 / 10 ^ (5 - half)) /\
    dec_value dn = Qfloor (Egm.py_mod ntings 100000 / 10 ^ (5 - half)).
Proof.
  intros [He1 He2] [Hn1 Hn2] Hh.
  destruct (hundred_km etings 7 He1 He2) as [Ee1 Ee2].
  destruct (hundred_km ntings 13 Hn1 Hn2) as [En1 En2].
  unfold NorthingsEastingsToGrid. cbv zeta.
  change (ord "A") with 65%Z. change (ord "Z") with 90%Z.
  change (ord "0") with 48%Z. change (ord "9") with 57%Z.
  set (n := Qfloor (ntings / 100000)) in *. set (e := Qfloor (etings / 100000)) in *.
  set (l1 := ((19 - n) - (19 - n) mod 5 + (e + 10) / 5)%Z).
  set (l2 := ((19 - n) * 5 mod 25 + e mod 5)%Z).
  assert (R1 : (7 <= l1 <= 18)%Z) by (unfold l1; Z.div_mod_to_equations; lia).
  assert (R2 : (0 <= l2 <= 24)%Z) by (unfold l2; Z.div_mod_to_equations; lia).
  set (a1 := if (7 <? l1)%Z then (l1 + 1)%Z else l1).
  set (a2 := if (7 <? l2)%Z then (l2 + 1)%Z else l2).
  assert (B1 : (7 <= a1 <= 19)%Z) by (unfold a1; destruct (Z.ltb_spec 7 l1); lia).
  assert (B2 : (0 <= a2 <= 25)%Z) by (unfold a2; destruct (Z.ltb_spec 7 l2); lia).
  rewrite (py_chr_in (a1 + 65)) by lia.
  rewrite (py_chr_in (a2 + 65)) by lia.
  cbn [bind].
  destruct (padded_field _ half Hh (field_range etings half ltac:(lia)))
    as (Le & De & Ve).
  destruct (padded_field _ half Hh (field_range ntings half ltac:(lia)))
    as (Ln & Dn & Vn).
  do 4 eexists. split; [reflexivity|].
  change (ord "A") with 65%Z.
  repeat split; try lia; assumption.
Qed.

Lemma NorthingsEastingsToGrid_format_witness :
  (0 <= 651409 < 700000 /\ 0 <= 313177 < 1300000 /\ (1 <= 3)%Z) /\
  exists c1 c2 de dn,
    NorthingsEastingsToGrid 313177 651409 3
      = Ok ([c1; c2] ++ codes " " ++ de ++ codes " " ++ dn) /\
    (ord "A" <= c1 <= ord "Z")%Z /\ (ord "A" <= c2 <= ord "Z")%Z /\
    length de = Z.to_nat 3 /\ length dn = Z.to_nat 3 /\
    Forall (fun d => ord "0" <= d <= ord "9")%Z de /\
    Forall (fun d => ord "0" <= d <= ord "9")%Z dn /\
    dec_value de = Qfloor (Egm.py_mod 651409 100000 / 10 ^ (5 - 3)) /\
    dec_value dn = Qfloor (Egm.py_mod 313177 100000 / 10 ^ (5 - 3)).
Proof.
  assert (H1 : 0 <= 651409 < 700000) by (split; qcmp).
  assert (H2 : 0 <= 313177 < 1300000) by (split; qcmp).
  assert (H3 : (1 <= 3)%Z) by lia.
  split; [split; [exact H1 | split; [exact H2 | exact H3]]|].
  exact (NorthingsEastingsToGrid_format _ _ _ H1 H2 H3).
Defined.

(** X5: On the National Grid, distinct 100 km squares get distinct letter
    pairs: two calls whose results start with the same two letters were
    given eastings in the same 100 km column and northings in the same
    100 km row. *)
Theorem NorthingsEastingsToGrid_letters_identify_square
    (n1 e1 n2 e2 : Q) (h1 h2 : Z) (s1 s2 : list Z) :
  0 <= e1 < 700000 -> 0 <= n1 < 1300000 ->
  0 <= e2 < 700000 -> 0 <= n2 < 1300000 ->
  NorthingsEastingsToGrid n1 e1 h1 = Ok s1 ->
  NorthingsEastingsToGrid n2 e2 h2 = Ok s2 ->
  firstn 2 s1 = firstn 2 s2 ->
  Qfloor (e1 / 100000) = Qfloor (e2 / 100000) /\
  Qfloor (n1 / 100000) = Qfloor (n2 / 100000).
Proof.
  intros [He1 He1'] [Hn1 Hn1'] [He2 He2'] [Hn2 Hn2'] H1 H2 Hf.
  apply NorthingsEastingsToGrid_letters in H1.
  apply NorthingsEastingsToGrid_letters in H2.
  rewrite H1, H2 in Hf. injection Hf as F1 F2.
  apply letters_identify; try apply hundred_km; assumption.
Qed.

Lemma NorthingsEastingsToGrid_letters_identify_square_witness :
  Qfloor (651409 / 100000) = Qfloor (600000 / 100000) /\
  Qfloor (313177 / 100000) = Qfloor (300000 / 100000).
Proof.
  assert (H1 : NorthingsEastingsToGrid 313177 651409 5 = Ok (codes "TG 51409 13177"))
    by (vm_compute; reflexivity).
  assert (H2 : NorthingsEastingsToGrid 300000 600000 2 = Ok (codes "TG 00 00"))
    by (vm_compute; reflexivity).
  assert (Ha : 0 <= 651409 < 700000) by (split; qcmp).
  assert (Hb : 0 <= 313177 < 1300000) by (split; qcmp).
  assert (Hc : 0 <= 600000 < 700000) by (split; qcmp).
  assert (Hd : 0 <= 300000 < 1300000) by (split; qcmp).
  exact (NorthingsEastingsToGrid_letters_identify_square
           313177 651409 300000 600000 5 2 _ _ Ha Hb Hc Hd H1 H2 eq_refl).
Defined.

(** X6: [NorthingsEastingsToGrid] checks no range: for eastings in
    [[0, 700000)] and northings of 8500000 or more the first letter's
    code point is negative and [chr] raises [ValueError]. *)
Theorem NorthingsEastingsToGrid_far_north (ntings etings : Q) (half : Z) :
  0 <= etings < 700000 -> 8500000 <= ntings ->
  NorthingsEastingsToGrid ntings etings half = Err ValueError.
Proof.
  intros [He1 He2] Hn.
  destruct (hundred_km etings 7 He1 He2) as [Ee1 Ee2].
  assert (En : (85 <= Qfloor (ntings / 100000))%Z).
  { rewrite <- (Qfloor_Z 85). apply Qfloor_resp_le.
    change (inject_Z 85) with 85. DmsFacts.qlra. }
  unfold NorthingsEastingsToGrid. cbv zeta.
  set (n := Qfloor (ntings / 100000)) in *. set (e := Qfloor (etings / 100000)) in *.
  set (l1 := ((19 - n) - (19 - n) mod 5 + (e + 10) / 5)%Z).
  assert (R1 : (l1 <= -67)%Z) by (unfold l1; Z.div_mod_to_equations; lia).
  destruct (Z.ltb_spec 7 l1) as [H|H]; [lia|].
  rewrite py_chr_neg by (change (ord "A") with 65%Z; lia). reflexivity.
Qed.

Lemma NorthingsEastingsToGrid_far_north_witness :
  NorthingsEastingsToGrid 9000000 651409 5 = Err ValueError.
Proof.
  apply NorthingsEastingsToGrid_far_north;
    [split; qcmp | qcmp].
Defined.

End OsGridProps.

Module Geo2.
Import Geo.
Local Open Scope R_scope.

(** [BearingBetween(lat_1, lon_1, lat_2, lon_2, degrees)], the initial
    bearing in degrees. *)
Definition BearingBetween (lat_1 lon_1 lat_2 lon_2 : R) (degrees : bool) : R :=
  let '(lat_1, lon_1, lat_2, lon_2) :=
    if degrees
    then (DegToRad lat_1, DegToRad lon_1, DegToRad lat_2, DegToRad lon_2)
    else (lat_1, lon_1, lat_2, lon_2) in
  let delta_lon := lon_2 - lon_1 in
  let brg := py_atan2 (sin delta_lon * cos lat_2)
                      ((cos lat_1 * sin lat_2) - (sin lat_1 * cos lat_2 * cos delta_lon)) in
  RadToDeg brg.

(** [HelmertTransform(x, y, z)]: WGS84 to OSGB36 Cartesian coordinates. *)
Definition HelmertTransform (x y z : R) : R * R * R :=
  let cx := -446.448 in
  let cy := 125.157 in
  let cz := -542.060 in
  let s := 20.4894 in
  let rx := -0.1502 in
  let ry := -0.2470 in
  let rz := -0.8421 in
  let rx := (rx / (3600 * 180)) * PI in
  let ry := (ry / (3600 * 180)) * PI in
  let rz := (rz / (3600 * 180)) * PI in
  let xb := cx + (1 + s * 1e-6) * (x - (rz * y) + (ry * z)) in
  let yb := cy + (1 + s * 1e-6) * ((rz * x) + y - (rx * z)) in
  let zb := cz + (1 + s * 1e-6) * ((-ry * x) + (rx * y) + z) in
  (xb, yb, zb).

End Geo2.

Module Geo2Facts.
Import Geo GeoFacts Geo2.
Local Open Scope R_scope.





Lemma RadToDeg_PI2 : RadToDeg (PI / 2) = 90.
Proof. unfold RadToDeg. pose proof PI_RGT_0. field. lra. Qed.

Lemma RadToDeg_mPI2 : RadToDeg (- (PI / 2)) = -90.
Proof. unfold RadToDeg. pose proof PI_RGT_0. field. lra. Qed.

Lemma DegToRad_sub (a b : R) : DegToRad a - DegToRad b = DegToRad (a - b).
Proof. unfold DegToRad. field. Qed.


Lemma DegToRad_bounds_strict (d : R) (lo hi : R) :
  lo < d < hi -> lo * PI / 180 < DegToRad d < hi * PI / 180.
Proof.
  intros H. pose proof PI_RGT_0. unfold DegToRad. split; unfold Rdiv; nra.
Qed.


(** [atan2(y, 0)] is [pi/2] or [-pi/2] by the sign of [y]. *)
Lemma py_atan2_x0 (y : R) :
  (0 < y -> py_atan2 y 0 = PI / 2) /\ (y < 0 -> py_atan2 y 0 = - (PI / 2)).
Proof.
  unfold py_atan2.
  destruct (Rlt_dec 0 0); [lra|]. destruct (Rlt_dec 0 0); [lra|].
  split; intros Hy.
  - destruct (Rlt_dec 0 y); [reflexivity | lra].
  - destruct (Rlt_dec 0 y); [lra|]. destruct (Rlt_dec y 0); [reflexivity | lra].
Qed.


(** Along the equator they are [sin (lon_2 - lon_1)] and [0]. *)
Lemma BearingBetween_equator_args (lon_1 lon_2 : R) :
  BearingBetween 0 lon_1 0 lon_2 true
  = RadToDeg (py_atan2 (sin (DegToRad (lon_2 - lon_1))) 0).
Proof.
  unfold BearingBetween. cbv zeta iota.
  rewrite DegToRad_0, sin_0, cos_0, <- DegToRad_sub. f_equal. f_equal; ring.
Qed.

Lemma Rabs_bounds (x a : R) : Rabs x <= a -> - a <= x <= a.
Proof.
  intros H. pose proof (Rle_abs x). pose proof (Rle_abs (- x)).
  rewrite Rabs_Ropp in *. lra.
Qed.

(** The Helmert constants in the form [HelmertTransform] uses them. *)
Definition hs : R := 1 + 20.4894 * 1e-6.
Definition hrx : R := (-0.1502 / (3600 * 180)) * PI.
Definition hry : R := (-0.2470 / (3600 * 180)) * PI.
Definition hrz : R := (-0.8421 / (3600 * 180)) * PI.

Lemma HelmertTransform_eq (x y z : R) :
  HelmertTransform x y z =
  (-446.448 + hs * (x - (hrz * y) + (hry * z)),
   125.157 + hs * ((hrz * x) + y - (hrx * z)),
   -542.060 + hs * ((-hry * x) + (hrx * y) + z)).
Proof. reflexivity. Qed.

End Geo2Facts.

Module Geo2Props.
Import Geo GeoFacts Geo2 Geo2Facts.
Local Open Scope R_scope.




(** X9: Along the equator (angles in degrees) the bearing is 90 (due
    east) when the second longitude lies less than 180 degrees east of the
    first, and -90 (due west) when it lies less than 180 degrees west. *)
Theorem BearingBetween_equator (lon_1 lon_2 : R) :
  (0 < lon_2 - lon_1 < 180 -> BearingBetween 0 lon_1 0 lon_2 true = 90) /\
  (-180 < lon_2 - lon_1 < 0 -> BearingBetween 0 lon_1 0 lon_2 true = -90).
Proof.
  rewrite BearingBetween_equator_args. split; intros H.
  - apply DegToRad_bounds_strict in H.
    replace (0 * PI / 180) with 0 in H by (unfold Rdiv; ring).
    replace (180 * PI / 180) with PI in H by field.
    rewrite (proj1 (py_atan2_x0 _)) by (apply sin_gt_0; lra). apply RadToDeg_PI2.
  - apply DegToRad_bounds_strict in H.
    replace (0 * PI / 180) with 0 in H by (unfold Rdiv; ring).
    replace (-180 * PI / 180) with (- PI) in H by field.
    rewrite (proj2 (py_atan2_x0 _)) by (apply sin_lt_0_var; lra). apply RadToDeg_mPI2.
Qed.

Lemma BearingBetween_equator_witness :
  BearingBetween 0 10 0 20 true = 90 /\ BearingBetween 0 20 0 10 true = -90.
Proof.
  destruct (BearingBetween_equator 10 20) as [E _].
  destruct (BearingBetween_equator 20 10) as [_ W].
  split; [apply E; lra | apply W; lra].
Defined.

(** X10: [HelmertTransform] is affine: the image of [p + k * q], less the
    image of the origin, is the image of [p] plus [k] times the image of
    [q], each less the image of the origin. *)
Theorem HelmertTransform_affine (x1 y1 z1 x2 y2 z2 k : R) :
  let '(xa, ya, za) := HelmertTransform x1 y1 z1 in
  let '(xb, yb, zb) := HelmertTransform x2 y2 z2 in
  let '(xc, yc, zc) := HelmertTransform (x1 + k * x2) (y1 + k * y2) (z1 + k * z2) in
  let '(x0, y0, z0) := HelmertTransform 0 0 0 in
  xc - x0 = (xa - x0) + k * (xb - x0) /\
  yc - y0 = (ya - y0) + k * (yb - y0) /\
  zc - z0 = (za - z0) + k * (zb - z0).
Proof.
  rewrite !HelmertTransform_eq. split; [|split]; ring.
Qed.

(** X11: [HelmertTransform] moves every point whose coordinates are at
    most 10000 km in magnitude by less than 1 km along each axis. *)
Theorem HelmertTransform_small_shift (x y z : R) :
  Rabs x <= 10000000 -> Rabs y <= 10000000 -> Rabs z <= 10000000 ->
  let '(xb, yb, zb) := HelmertTransform x y z in
  Rabs (xb - x) < 1000 /\ Rabs (yb - y) < 1000 /\ Rabs (zb - z) < 1000.
Proof.
  intros Hx Hy Hz. rewrite HelmertTransform_eq.
  pose proof PI_RGT_0 as HP0. pose proof PI_4 as HP4.
  apply Rabs_bounds in Hx. apply Rabs_bounds in Hy. apply Rabs_bounds in Hz.
  unfold hs, hrx, hry, hrz.
  split; [|split]; apply Rabs_def1; nra.
Qed.

Lemma HelmertTransform_small_shift_witness :
  let '(xb, yb, zb) := HelmertTransform 3980000 (-10000) 4970000 in
  Rabs (xb - 3980000) < 1000 /\ Rabs (yb - (-10000)) < 1000 /\ Rabs (zb - 4970000) < 1000.
Proof.
  apply HelmertTransform_small_shift; apply Rabs_le; lra.
Defined.

End Geo2Props.

Module Location.
Local Open Scope Q_scope.

(** A coordinate attribute: [None], the constructor's default, or a
    number. *)
Inductive PyNum : Type :=
| PNone
| PNum (q : Q).

(** The attributes of a [CLocation]; [lat_signed] and [lon_signed] are
    taken as booleans. *)
Record CLocation : Type := {
  Latitude : PyNum;
  Longitude : PyNum;
  LatSigned : bool;
  LonSigned : bool;
  ReferenceEllipsoid : Geo.EllipsoidRef;
  Name : string
}.

(** [CLocation(lat, lon, lat_signed, lon_signed)]. *)
Definition init (lat lon : PyNum) (lat_signed lon_signed : bool) : CLocation := {|
  Latitude := lat;
  Longitude := lon;
  LatSigned := lat_signed;
  LonSigned := lon_signed;
  ReferenceEllipsoid := Geo.Wgs84;
  Name := EmptyString
|}.

Definition SetName (self : CLocation) (name : string) : CLocation := {|
  Latitude := Latitude self;
  Longitude := Longitude self;
  LatSigned := LatSigned self;
  LonSigned := LonSigned self;
  ReferenceEllipsoid := ReferenceEllipsoid self;
  Name := name
|}.

Definition SetLatLon (self : CLocation) (lat lon : PyNum) (lat_signed lon_signed : bool)
  : CLocation := {|
  Latitude := lat;
  Longitude := lon;
  LatSigned := lat_signed;
  LonSigned := lon_signed;
  ReferenceEllipsoid := ReferenceEllipsoid self;
  Name := Name self
|}.

(** [x + k] and [x - k]: [None] supports no arithmetic. *)
Definition py_add (x : PyNum) (k : Q) : result PyNum :=
  match x with
  | PNum q => Ok (PNum (q + k))
  | PNone => Err TypeError
  end.

Definition py_sub (x : PyNum) (k : Q) : result PyNum :=
  match x with
  | PNum q => Ok (PNum (q - k))
  | PNone => Err TypeError
  end.

Definition GetLat (self : CLocation) (signed : bool) : result PyNum :=
  if signed then
    if LatSigned self then Ok (Latitude self)
    else py_sub (Latitude self) 90
  else
    if LatSigned self then py_add (Latitude self) 90
    else Ok (Latitude self).

End Location.

Module LocationProps.
Import Location.
Local Open Scope Q_scope.

(** X12: For a location whose latitude is a number, [GetLat(signed=False)]
    returns [GetLat(signed=True)] plus 90, whichever convention the
    latitude was stored in. *)
Theorem GetLat_unsigned_is_signed_plus_90 (loc : CLocation) (lat : Q) :
  Latitude loc = PNum lat ->
  exists a b, GetLat loc true = Ok (PNum a) /\ GetLat loc false = Ok (PNum b) /\
              b == a + 90.
Proof.
  intros H. unfold GetLat. rewrite H.
  destruct (LatSigned loc); cbn [py_add py_sub]; do 2 eexists;
    (split; [reflexivity | split; [reflexivity | ring]]).
Qed.

Lemma GetLat_unsigned_is_signed_plus_90_witness :
  exists a b, GetLat (init (PNum 30) PNone false true) true = Ok (PNum a) /\
              GetLat (init (PNum 30) PNone false true) false = Ok (PNum b) /\
              b == a + 90.
Proof. apply (GetLat_unsigned_is_signed_plus_90 _ 30). reflexivity. Defined.

(** X13: For a location without a latitude (the constructor's default),
    [GetLat] returns [None] in the convention the location was created or
    set with, and raises [TypeError] in the other, where it does
    arithmetic on [None]. *)
Theorem GetLat_no_latitude (loc : CLocation) :
  Latitude loc = PNone ->
  GetLat loc (LatSigned loc) = Ok PNone /\
  GetLat loc (negb (LatSigned loc)) = Err TypeError.
Proof.
  intros H. unfold GetLat. rewrite H.
  destruct (LatSigned loc); split; reflexivity.
Qed.

Lemma GetLat_no_latitude_witness :
  GetLat (init PNone PNone true true) true = Ok PNone /\
  GetLat (init PNone PNone true true) false = Err TypeError.
Proof. exact (GetLat_no_latitude (init PNone PNone true true) eq_refl). Defined.

End LocationProps.

Module EgmLoad.
Local Open Scope Q_scope.








End EgmLoad.

Module EgmLoadFacts.
Import EgmLoad.
Local Open Scope Q_scope.























End EgmLoadFacts.

Module EgmLoadProps.
Import EgmLoad EgmLoadFacts.
Local Open Scope Q_scope.



End EgmLoadProps.

Module EgmFacts2.
Import Egm EgmFacts.
Local Open Scope Q_scope.

Lemma round_half_even_compat (q q' : Q) :
  q == q' -> Py.round_half_even q = Py.round_half_even q'.
Proof.
  intros E. unfold Py.round_half_even. rewrite (Qfloor_comp q q' E).
  set (f := Qfloor q').
  destruct (Qlt_le_dec (q - inject_Z f) (1 # 2)) as [A|A],
           (Qlt_le_dec (q' - inject_Z f) (1 # 2)) as [B|B];
    try reflexivity; try (exfalso; rewrite E in A; Lqa.lra).
  destruct (Qeq_bool (q - inject_Z f) (1 # 2)) eqn:C,
           (Qeq_bool (q' - inject_Z f) (1 # 2)) eqn:D; try reflexivity; exfalso.
  - apply Qeq_bool_iff in C. apply Qeq_bool_neq in D. apply D. rewrite <- E. exact C.
  - apply Qeq_bool_neq in C. apply Qeq_bool_iff in D. apply C. rewrite E. exact D.
Qed.

Lemma round2_compat (q q' : Q) : q == q' -> round2 q = round2 q'.
Proof.
  intros E. unfold round2. f_equal. f_equal. apply round_half_even_compat.
  rewrite E. reflexivity.
Qed.

Lemma round_half_even_mono (q q' : Q) :
  q <= q' -> (Py.round_half_even q <= Py.round_half_even q')%Z.
Proof.
  intros H. destruct (Z.le_gt_cases (Py.round_half_even q) (Py.round_half_even q'))
    as [L|L]; [exact L|].
  pose proof (DmsFacts.round_half_even_spec q) as [A1 A2].
  pose proof (DmsFacts.round_half_even_spec q') as [B1 B2].
  assert (L' : inject_Z (Py.round_half_even q') + 1 <= inject_Z (Py.round_half_even q)).
  { change 1 with (inject_Z 1). rewrite <- inject_Z_plus, <- Zle_Qle. lia. }
  assert (E : q == q') by Lqa.lra.
  rewrite (round_half_even_compat q q' E). lia.
Qed.

Lemma round2_mono (q q' : Q) : q <= q' -> round2 q <= round2 q'.
Proof.
  intros H. unfold round2. apply Qmult_le_r; [reflexivity|].
  rewrite <- Zle_Qle. apply round_half_even_mono.
  apply Qmult_le_r; [reflexivity | exact H].
Qed.

(** The two weights of one interpolation step are non-negative and add up
    to one, so the result lies between the two values. *)
Lemma interp_between (u v d a b lo hi : Q) :
  0 <= u -> 0 <= v -> u + v == d -> 0 < d ->
  lo <= a <= hi -> lo <= b <= hi ->
  lo <= (u / d) * a + (v / d) * b <= hi.
Proof.
  intros Hu Hv Hd Hd0 Ha Hb.
  assert (W : u / d + v / d == 1) by (rewrite <- Hd; field; rewrite Hd; Lqa.lra).
  assert (Wu : 0 <= u / d) by (apply Qle_shift_div_l; [exact Hd0 | Lqa.lra]).
  assert (Wv : 0 <= v / d) by (apply Qle_shift_div_l; [exact Hd0 | Lqa.lra]).
  set (s := u / d) in *. set (t := v / d) in *.
  split; Lqa.nra.
Qed.

(** The weights of [GetHeight]: with [x1 = x - x % 0.25] and
    [x2 = x1 + 0.25], [x2 - x] and [x - x1] are non-negative and add up to
    [x2 - x1 = 0.25]. *)
Lemma cell_weights (x : Q) :
  let x1 := x - py_mod x StepSize in
  let x2 := x1 + StepSize in
  0 <= x2 - x /\ 0 <= x - x1 /\ (x2 - x) + (x - x1) == x2 - x1 /\ 0 < x2 - x1.
Proof.
  cbv zeta. unfold py_mod, StepSize.
  pose proof (Qfloor_le (x / (1 # 4))) as H1.
  pose proof (Qlt_floor (x / (1 # 4))) as H2.
  rewrite inject_Z_plus in H2. change (inject_Z 1) with 1 in H2.
  set (F := inject_Z (Qfloor (x / (1 # 4)))) in *.
  assert (E : x / (1 # 4) == 4 * x) by field. rewrite E in H1, H2.
  repeat split; Lqa.lra.
Qed.

(** Evaluate the next [py_index] of a hypothesis [H : ... = Ok h]: it
    returns an element of its list, or raises and [H] is absurd. *)
Ltac index_hyp H :=
  match type of H with
  | context [py_index ?l ?i] =>
      let Hin := fresh "Hin" in let x := fresh "v" in let Hx := fresh "Hx" in
      destruct (py_index_cases l i) as [[_ [x [Hx Hin]]] | [_ Hx]];
      rewrite Hx in H; cbn [bind] in H; [|discriminate H]
  end.

Lemma py_index_nth {A} (l : List.list A) (i : Z) (x : A) :
  (0 <= i)%Z -> nth_error l (Z.to_nat i) = Some x -> py_index l i = Ok x.
Proof.
  intros Hi Hx. unfold py_index.
  destruct (Z.ltb_spec i 0) as [H|_]; [lia|].
  assert (Hlt : (Z.to_nat i < length l)%nat)
    by (apply nth_error_Some; rewrite Hx; discriminate).
  destruct (Z.ltb_spec i 0); [lia|].
  destruct (Z.leb_spec (Z.of_nat (length l)) i); [lia|].
  cbn [orb]. rewrite Hx. reflexivity.
Qed.

Lemma py_mod_node (j : Z) : py_mod (inject_Z j * StepSize) StepSize == 0.
Proof.
  unfold py_mod.
  assert (E : inject_Z j * StepSize / StepSize == inject_Z j)
    by (unfold StepSize; field).
  rewrite (Qfloor_comp _ _ E), Qfloor_Z. unfold StepSize. ring.
Qed.

End EgmFacts2.

Module EgmProps2.
Import Egm EgmFacts EgmFacts2.
Local Open Scope Q_scope.

(** X15: Bilinear interpolation never leaves the range of the grid: if
    every value of the grid lies in [[lo, hi]], every height [GetHeight]
    returns lies between [round(lo, 2)] and [round(hi, 2)]. *)
Theorem GetHeight_within_grid_range (g : list (list Q)) (lo hi lat lon h : Q) :
  (forall row v, In row g -> In v row -> lo <= v <= hi) ->
  GetHeight g lat lon = Ok h ->
  round2 lo <= h /\ h <= round2 hi.
Proof.
  intros Hg H. unfold GetHeight in H. cbv zeta in H.
  repeat index_hyp H.
  injection H as <-.
  destruct (cell_weights lon) as (Xu & Xv & Xs & Xd).
  destruct (cell_weights lat) as (Yu & Yv & Ys & Yd).
  cbv zeta in Xu, Xv, Xs, Xd, Yu, Yv, Ys, Yd.
  assert (I11 : lo <= v0 <= hi) by (apply (Hg v); assumption).
  assert (I12 : lo <= v2 <= hi) by (apply (Hg v1); assumption).
  assert (I21 : lo <= v3 <= hi) by (apply (Hg v); assumption).
  assert (I22 : lo <= v4 <= hi) by (apply (Hg v1); assumption).
  pose proof (interp_between _ _ _ _ _ _ _ Xu Xv Xs Xd I11 I21) as R1.
  pose proof (interp_between _ _ _ _ _ _ _ Xu Xv Xs Xd I12 I22) as R2.
  pose proof (interp_between _ _ _ _ _ _ _ Yu Yv Ys Yd R1 R2) as [R3 R4].
  split; apply round2_mono; assumption.
Qed.

Lemma GetHeight_within_grid_range_witness :
  round2 0 <= 28800 # 100 /\ 28800 # 100 <= round2 720.
Proof.
  assert (Hg : forall row v, In row row_index_grid -> In v row -> 0 <= v <= 720).
  { intros row v Hr Hv. unfold row_index_grid in Hr.
    apply in_map_iff in Hr. destruct Hr as [r [<- Hr]].
    apply repeat_spec in Hv. subst v. apply in_seq in Hr.
    change 0 with (inject_Z 0). change 720 with (inject_Z 720).
    rewrite <- !Zle_Qle. lia. }
  assert (H : GetHeight row_index_grid 72 10 = Ok (28800 # 100)).
  { vm_compute. reflexivity. }
  destruct (GetHeight_within_grid_range _ _ _ _ _ _ Hg H) as [A B].
  exact (conj A B).
Defined.

(** X16: At a grid node ([lat = i * 0.25], [lon = j * 0.25] with the four
    surrounding indices inside the grid) [GetHeight] returns the node's
    stored value rounded to two decimals: the interpolation weights of
    the other three values are zero. *)
Theorem GetHeight_at_node (g : list (list Q)) (rows cols : nat) (i j : Z)
    (row : list Q) (q : Q) :
  is_rect g rows cols = true ->
  (0 <= i <= Z.of_nat rows - 2)%Z -> (0 <= j <= Z.of_nat cols - 2)%Z ->
  nth_error g (Z.to_nat i) = Some row -> nth_error row (Z.to_nat j) = Some q ->
  GetHeight g (inject_Z i * StepSize) (inject_Z j * StepSize) = Ok (round2 q).
Proof.
  intros Hg Hi Hj Hrow Hq. destruct (is_rect_spec g rows cols Hg) as [Hr Hc].
  unfold GetHeight. cbv zeta.
  rewrite !int_cell_next, !int_cell.
  assert (Fi : Qfloor (inject_Z i * StepSize / StepSize) = i).
  { rewrite (Qfloor_comp _ (inject_Z i)) by (unfold StepSize; field). apply Qfloor_Z. }
  assert (Fj : Qfloor (inject_Z j * StepSize / StepSize) = j).
  { rewrite (Qfloor_comp _ (inject_Z j)) by (unfold StepSize; field). apply Qfloor_Z. }
  rewrite Fi, Fj.
  rewrite (py_index_nth g i row) by (lia || exact Hrow). cbn [bind].
  rewrite (py_index_nth row j q) by (lia || exact Hq). cbn [bind].
  assert (Hrin : In row g) by (eapply nth_error_In; exact Hrow).
  repeat index_step Hr Hc; try (exfalso; lia).
  f_equal. apply round2_compat.
  pose proof (py_mod_node i) as Mi. pose proof (py_mod_node j) as Mj.
  set (x := inject_Z j * StepSize) in *. set (y := inject_Z i * StepSize) in *.
  set (mx := py_mod x StepSize) in *. set (my := py_mod y StepSize) in *.
  rewrite Mi, Mj. unfold StepSize. field. intros Z0. Lqa.lra.
Qed.

Lemma GetHeight_at_node_witness :
  GetHeight row_index_grid (inject_Z 288 * StepSize) (inject_Z 40 * StepSize)
  = Ok (round2 288).
Proof.
  apply (GetHeight_at_node row_index_grid 721 1441 288 40 (repeat 288 1441)).
  - vm_compute. reflexivity.
  - lia.
  - lia.
  - vm_compute. reflexivity.
  - vm_compute. reflexivity.
Defined.

End EgmProps2.

Module Geo3Facts.
Import Geo.
Local Open Scope R_scope.

(** The haversine term [a] of [DistanceBetween] lies in [[0, 1]]: it is
    [(1 - d) / 2] where [d] is the cosine of the central angle, the dot
    product of two unit vectors. *)
Lemma haversine_unit (lat_1 lon_1 lat_2 lon_2 : R) :
  let a := (sin ((lat_2 - lat_1) / 2) * sin ((lat_2 - lat_1) / 2))
           + (cos lat_1 * cos lat_2 * sin ((lon_2 - lon_1) / 2)
              * sin ((lon_2 - lon_1) / 2)) in
  0 <= a <= 1.
Proof.
  cbv zeta.
  set (u := (lat_2 - lat_1) / 2). set (v := (lon_2 - lon_1) / 2).
  assert (Hu : sin u * sin u = (1 - (cos lat_1 * cos lat_2 + sin lat_1 * sin lat_2)) / 2).
  { assert (E : lat_2 - lat_1 = 2 * u) by (unfold u; field).
    pose proof (cos_minus lat_2 lat_1) as C. rewrite E, cos_2a_sin in C.
    unfold Rsqr in C. lra. }
  rewrite Hu.
  set (s1 := sin lat_1). set (c1 := cos lat_1).
  set (s2 := sin lat_2). set (c2 := cos lat_2).
  set (w := sin v).
  assert (P1 : s1 * s1 + c1 * c1 = 1) by (pose proof (sin2_cos2 lat_1) as S; unfold Rsqr in S; unfold s1, c1; lra).
  assert (P2 : s2 * s2 + c2 * c2 = 1) by (pose proof (sin2_cos2 lat_2) as S; unfold Rsqr in S; unfold s2, c2; lra).
  assert (W1 : w * w <= 1).
  { pose proof (sin2_cos2 v) as S. unfold Rsqr in S. fold w in S.
    pose proof (Rle_0_sqr (cos v)). unfold Rsqr in *. lra. }
  assert (W0 : 0 <= w * w) by apply Rle_0_sqr.
  set (t := 1 - 2 * (w * w)).
  assert (T : -1 <= t <= 1) by (unfold t; lra).
  assert (D : (s1 * s2 + c1 * c2 * t) * (s1 * s2 + c1 * c2 * t) <= 1).
  { assert (CS : (s1 * s2 + c1 * c2 * t) * (s1 * s2 + c1 * c2 * t)
                 <= (s1 * s1 + c1 * c1) * (s2 * s2 + c2 * c2 * (t * t))).
    { assert (0 <= (s1 * c2 * t - c1 * s2) * (s1 * c2 * t - c1 * s2)) by apply Rle_0_sqr.
      nra. }
    rewrite P1 in CS.
    assert (c2 * c2 * (t * t) <= c2 * c2).
    { assert (0 <= c2 * c2) by apply Rle_0_sqr.
      assert (t * t <= 1) by nra. nra. }
    lra. }
  assert (Dr : -1 <= s1 * s2 + c1 * c2 * t <= 1) by nra.
  unfold t in Dr. split; nra.
Qed.

Lemma py_atan2_first_quadrant (y x : R) :
  0 <= y -> 0 <= x -> 0 <= py_atan2 y x <= PI / 2.
Proof.
  intros Hy Hx. unfold py_atan2.
  pose proof PI_RGT_0.
  destruct (Rlt_dec 0 x) as [Px|Px].
  - pose proof (atan_bound (y / x)) as [_ B].
    split; [|lra].
    rewrite <- atan_0. destruct (Req_dec y 0) as [->|Ny].
    + unfold Rdiv. rewrite Rmult_0_l. lra.
    + left. apply atan_increasing. apply Rdiv_lt_0_compat; lra.
  - destruct (Rlt_dec x 0); [lra|].
    destruct (Rlt_dec 0 y); [lra|].
    destruct (Rlt_dec y 0); lra.
Qed.

End Geo3Facts.

Module Geo3Props.
Import Geo Geo3Facts.
Local Open Scope R_scope.

(** X17: In exact arithmetic [DistanceBetween] never raises: the
    haversine term [a] always lies in [[0, 1]], so both square roots are
    defined, and the distance lies between 0 and half the circumference
    [pi * 6378137] of the WGS84 equator. *)
Theorem DistanceBetween_range (lat_1 lon_1 lat_2 lon_2 : R) (degrees : bool) :
  exists d, DistanceBetween lat_1 lon_1 lat_2 lon_2 degrees = Ok d /\
            0 <= d <= PI * wgs84_earth_equatorial_radius_m.
Proof.
  unfold DistanceBetween.
  destruct degrees;
  [ set (p1 := DegToRad lat_1); set (l1 := DegToRad lon_1);
    set (p2 := DegToRad lat_2); set (l2 := DegToRad lon_2)
  | set (p1 := lat_1); set (l1 := lon_1); set (p2 := lat_2); set (l2 := lon_2) ];
  cbv zeta;
  pose proof (haversine_unit p1 l1 p2 l2) as [H0 H1]; cbv zeta in H0, H1;
  unfold py_sqrt;
  (destruct (Rlt_dec _ 0) as [N|_]; [lra|]);
  (destruct (Rlt_dec _ 0) as [N|_]; [lra|]); cbn [bind];
  (eexists; split; [reflexivity|]);
  (match goal with |- context [py_atan2 (sqrt ?y) (sqrt ?x)] =>
     pose proof (py_atan2_first_quadrant _ _ (sqrt_pos y) (sqrt_pos x)) as [A B] end);
  unfold wgs84_earth_equatorial_radius_m; split; nra.
Qed.

(** X18: For an ellipsoid with semi-axes [0 < b <= a], [Eccentricity1]
    (which returns the square [e^2] of the first eccentricity) lies in
    [[0, 1)], and [Eccentricity2] equals [e1 / (1 - e1)] where [e1] is
    [Eccentricity1 a b]. *)
Theorem Eccentricity_relation (a b : R) :
  0 < b <= a ->
  0 <= Eccentricity1 a b < 1 /\
  Eccentricity2 a b = Eccentricity1 a b / (1 - Eccentricity1 a b).
Proof.
  intros [Hb Hab]. unfold Eccentricity1, Eccentricity2.
  assert (Pa : 0 < a ^ 2) by (apply pow_lt; lra).
  assert (Pb : 0 < b ^ 2) by (apply pow_lt; lra).
  assert (Le : b ^ 2 <= a ^ 2) by (apply pow_incr; lra).
  split; [split|].
  - apply Rmult_le_pos; [lra|]. left. apply Rinv_0_lt_compat. exact Pa.
  - apply (Rmult_lt_reg_r (a ^ 2)); [exact Pa|].
    unfold Rdiv. rewrite Rmult_assoc, Rinv_l by lra. lra.
  - assert (E : 1 - (a ^ 2 - b ^ 2) / a ^ 2 = b ^ 2 / a ^ 2) by (field; lra).
    rewrite E. field. lra.
Qed.

Lemma Eccentricity_relation_witness :
  0 <= Eccentricity1 6378137 6356752.3142 < 1 /\
  Eccentricity2 6378137 6356752.3142
  = Eccentricity1 6378137 6356752.3142 / (1 - Eccentricity1 6378137 6356752.3142).
Proof.
  apply Eccentricity_relation. lra.
Defined.

End Geo3Props.

Module Geo4Facts.
Import Geo GeoFacts.
Local Open Scope R_scope.

Lemma py_div_ok (x y : R) : y <> 0 -> py_div x y = Ok (x / y).
Proof.
  intros H. unfold py_div. destruct (Req_EM_T y 0); [contradiction | reflexivity].
Qed.

Lemma ecef_equator (ref : EllipsoidRef) (a b lon h : R) :
  ellipsoid_lookup ref = Some (a, b) -> 0 < b <= a ->
  -90 < lon < 90 -> 0 <= h ->
  exists x y z,
    LatLonHeightToEcefCartesian (VNum 0) (VNum lon) h LatLonDd ref = ([], Ok (x, y, z)) /\
    CartesianToLatLon x y z ref = Ok (0, lon, h).
Proof.
  intros Hl [Hb Hab] Hlon Hh.
  assert (Hpr : match ref with OtherValue _ => False | _ => True end)
    by (destruct ref; [exact I | exact I | discriminate Hl]).
  unfold LatLonHeightToEcefCartesian, CartesianToLatLon.
  cbn [convert_format DegToRad_val bind]. rewrite DegToRad_0, Hl.
  set (t := DegToRad lon).
  assert (Ht : - (PI / 2) < t < PI / 2).
  { unfold t, DegToRad. pose proof PI_RGT_0. split; nra. }
  rewrite sin_0, cos_0.
  set (e2 := Eccentricity1 a b). set (e22 := Eccentricity2 a b).
  assert (He2 : 0 <= e2 < 1).
  { unfold e2, Eccentricity1.
    assert (Pa : 0 < a ^ 2) by (apply pow_lt; lra).
    assert (Le : b ^ 2 <= a ^ 2) by (apply pow_incr; lra).
    assert (Pb : 0 < b ^ 2) by (apply pow_lt; lra).
    split.
    - apply Rmult_le_pos; [lra|]. left. apply Rinv_0_lt_compat. exact Pa.
    - apply (Rmult_lt_reg_r (a ^ 2)); [exact Pa|].
      unfold Rdiv. rewrite Rmult_assoc, Rinv_l by lra. lra. }
  assert (Hv : a / sqrt (1 - e2 * 0 ^ 2) = a).
  { replace (1 - e2 * 0 ^ 2) with 1 by ring. rewrite sqrt_1. field. }
  rewrite Hv.
  eexists _, _, _. split.
  { destruct ref; [reflexivity | reflexivity | contradiction]. }
  pose proof (cos_gt_0 t ltac:(lra) ltac:(lra)) as Hc.
  assert (Hp : sqrt (((a + h) * 1 * cos t) ^ 2 + ((a + h) * 1 * sin t) ^ 2) = a + h).
  { replace (((a + h) * 1 * cos t) ^ 2 + ((a + h) * 1 * sin t) ^ 2)
      with ((a + h) ^ 2 * (sin t ^ 2 + cos t ^ 2)) by ring.
    pose proof (sin2_cos2 t) as S. unfold Rsqr in S.
    replace (sin t ^ 2 + cos t ^ 2) with 1 by (rewrite <- S; ring).
    rewrite Rmult_1_r. apply sqrt_pow2. lra. }
  rewrite Hp.
  replace ((((1 - e2) * a) + h) * 0) with 0 by ring.
  assert (HR : sqrt ((a + h) ^ 2 + 0 ^ 2) = a + h).
  { replace ((a + h) ^ 2 + 0 ^ 2) with ((a + h) ^ 2) by ring. apply sqrt_pow2. lra. }
  rewrite HR.
  rewrite py_div_ok by (apply Rmult_integral_contrapositive; split; lra).
  cbn [bind].
  rewrite py_div_ok by lra. cbn [bind].
  replace (b * 0 / (a * (a + h)) * ((1 + e22) * (b / (a + h)))) with 0
    by (field; lra).
  rewrite atan_0, sin_0, cos_0.
  replace (0 + e22 * b * 0 ^ 3) with 0 by ring.
  rewrite py_div_ok by nra. cbn [bind].
  replace (0 / (a + h - e2 * a * 1 ^ 3)) with 0 by (field; nra).
  rewrite atan_0.
  rewrite py_div_ok by (apply Rmult_integral_contrapositive; split; [lra|]; lra).
  cbn [bind].
  replace ((a + h) * 1 * sin t / ((a + h) * 1 * cos t)) with (tan t)
    by (unfold tan; field; lra).
  rewrite atan_tan by lra.
  rewrite sin_0, cos_0, Hv.
  f_equal. f_equal; [f_equal|].
  - unfold RadToDeg. lra.
  - unfold t, RadToDeg, DegToRad. field. apply PI_neq0.
  - field. lra.
Qed.

End Geo4Facts.

Module Geo4Props.
Import Geo Geo4Facts.
Local Open Scope R_scope.

(** X19: On the equator the ECEF conversion and its inverse agree exactly
    for longitudes between -90 and 90 degrees: converting latitude 0,
    longitude [lon] (in degrees) and height [h >= 0] to ECEF coordinates
    with [LatLonHeightToEcefCartesian], then back with [CartesianToLatLon]
    on the same ellipsoid (Airy 1830 or WGS84), gives [(0, lon, h)]. *)
Theorem Ecef_roundtrip_equator (ref : EllipsoidRef) (lon h : R) :
  ref = Airy1830 \/ ref = Wgs84 ->
  -90 < lon < 90 -> 0 <= h ->
  exists x y z,
    LatLonHeightToEcefCartesian (VNum 0) (VNum lon) h LatLonDd ref = ([], Ok (x, y, z)) /\
    CartesianToLatLon x y z ref = Ok (0, lon, h).
Proof.
  intros [-> | ->] Hlon Hh.
  - apply (ecef_equator Airy1830 6377563.396 6356256.909); [reflexivity | lra | exact Hlon | exact Hh].
  - apply (ecef_equator Wgs84 6378137.000 6356752.3141); [reflexivity | lra | exact Hlon | exact Hh].
Qed.

Lemma Ecef_roundtrip_equator_witness :
  exists x y z,
    LatLonHeightToEcefCartesian (VNum 0) (VNum 45) 100 LatLonDd Wgs84 = ([], Ok (x, y, z)) /\
    CartesianToLatLon x y z Wgs84 = Ok (0, 45, 100).
Proof.
  apply (Ecef_roundtrip_equator Wgs84 45 100); [right; reflexivity | lra | lra].
Defined.

End Geo4Props.
